(** * A BWT + MTF + RLE file compressor: embedding and verification

    Shallow embedding of [encoder.py] and [decoder.py].

    - A Python [bytes]/[bytearray] value is a [list Z] whose elements lie in
      [0, 256) (predicate [is_bytes]); a [List[int]] is a [list Z].
    - List positions, lengths and counters are natural numbers; quantities
      that the code compares against negative bounds (the primary index, the
      MTF ranks, the comparator's byte difference) are integers.
    - A Python [dict] keyed by byte values is a [gmap Z nat].
    - Exceptions are explicit: every function that can raise returns a
      [result].  [while] loops take fuel; running out of fuel is a third
      outcome, and the theorems show it never happens with the fuel the
      top-level functions supply.
    - Logging has no effect on the values computed and is left out.  File
      reads and writes are the identity on contents: [compress_file] and
      [decompress_file] map the bytes of the input file to the bytes
      written to the output file.  Both wrap their body in [try]; the
      handler of [decompress_file] re-raises, the handler of [compress_file]
      ends the process with [sys.exit(1)], and in either case no output
      file is left. *)

From Stdlib Require Import ZArith List Lia.
From stdpp Require Import base tactics option list numbers gmap sorting.

(** ** Exceptions and results *)

(** The five [raise ValueError(...)] statements of [decoder.py]. *)
Inductive raise_site : Set :=
  | OriginalIndexOutOfRange  (* reverse_burrows_wheeler_transform, line 29 *)
  | RankOutOfRange           (* reverse_move_to_front_transform, line 86 *)
  | RankBeyondAlphabet       (* reverse_move_to_front_transform, line 94 *)
  | RunValueMissing          (* decode_run_length_encoding, line 139 *)
  | RawBytesMissing.         (* decode_run_length_encoding, line 151 *)

Inductive exn : Set :=
  | ValueError (site : raise_site)
  | NotInList       (* ValueError of list.index *)
  | ByteRange       (* ValueError of bytearray.append: not in range(256) *)
  | IndexError
  | KeyError
  | OverflowError   (* int.to_bytes *)
  | SystemExit (status : Z).  (* sys.exit *)

Inductive result (A : Type) : Type :=
  | Ok (a : A)
  | Raise (e : exn)
  | OutOfFuel.
Arguments Ok {A} a.
Arguments Raise {A} e.
Arguments OutOfFuel {A}.

Global Instance result_ret : MRet result := λ A, Ok.
Global Instance result_bind : MBind result := λ A B f m,
  match m with Ok a => f a | Raise e => Raise e | OutOfFuel => OutOfFuel end.
Global Instance result_fmap : FMap result := λ A B f m,
  match m with Ok a => Ok (f a) | Raise e => Raise e | OutOfFuel => OutOfFuel end.

(** The two error classes of the specification. *)
Definition InvalidIndex (e : exn) : Prop :=
  e = ValueError OriginalIndexOutOfRange ∨ e = ValueError RankOutOfRange
  ∨ e = ValueError RankBeyondAlphabet.
Definition TruncatedData (e : exn) : Prop :=
  e = ValueError RunValueMissing ∨ e = ValueError RawBytesMissing.

(** A [for] loop whose body may raise. *)
Fixpoint foldlM {A B} (f : A → B → result A) (a : A) (l : list B) : result A :=
  match l with
  | [] => Ok a
  | x :: l' => a' ← f a x; foldlM f a' l'
  end.

(** ** Python primitives *)

Definition is_byte (b : Z) : Prop := (0 ≤ b < 256)%Z.
Definition is_bytes (l : list Z) : Prop := Forall is_byte l.

Global Instance is_byte_dec b : Decision (is_byte b).
Proof. unfold is_byte. apply _. Defined.

(** [l[i]] for [0 <= i]. *)
Definition list_get {A} (l : list A) (i : nat) : result A :=
  match l !! i with Some x => Ok x | None => Raise IndexError end.

(** [d[k]] *)
Definition dict_get (d : gmap Z nat) (k : Z) : result nat :=
  match d !! k with Some v => Ok v | None => Raise KeyError end.

(** [d.get(k, 0)] *)
Definition dict_get0 (d : gmap Z nat) (k : Z) : nat := default 0 (d !! k).

(** [sorted(d)]: the keys in ascending order. *)
Definition sorted_keys (d : gmap Z nat) : list Z :=
  merge_sort Z.le (map_to_list d).*1.

(** [buf.append(v)] on a [bytearray]. *)
Definition bytearray_append (buf : list Z) (v : Z) : result (list Z) :=
  if decide (is_byte v) then Ok (buf ++ [v]) else Raise ByteRange.

(** [l.index(x)] *)
Fixpoint list_index (x : Z) (l : list Z) : result nat :=
  match l with
  | [] => Raise NotInList
  | y :: l' => if (y =? x)%Z then Ok 0 else S <$> list_index x l'
  end.

(** [v.to_bytes(4, 'big')] *)
Definition to_bytes4 (v : Z) : result (list Z) :=
  if ((v <? 0) || (2 ^ 32 <=? v))%Z then Raise OverflowError
  else Ok [(v / 2 ^ 24) `mod` 256; (v / 2 ^ 16) `mod` 256;
           (v / 2 ^ 8) `mod` 256; v `mod` 256]%Z.

(** [int.from_bytes(bs, 'big')] *)
Definition from_bytes_big (bs : list Z) : Z :=
  foldl (λ acc b, acc * 256 + b)%Z 0%Z bs.

(** ** encoder.py *)

(** *** perform_burrows_wheeler_transform *)

(** [data[i]] at a position that the code has reduced modulo [len(data)]. *)
Definition byte_at (data : list Z) (i : nat) : Z := nth i data 0%Z.

(** The body of [compare_rotations]: [for i in range(n)]. *)
Fixpoint compare_rotations_loop (data : list Z) (n a b : nat) (range : list nat) : Z :=
  match range with
  | [] => 0
  | i :: range' =>
      let diff := (byte_at data ((a + i) `mod` n) - byte_at data ((b + i) `mod` n))%Z in
      if (diff =? 0)%Z then compare_rotations_loop data n a b range' else diff
  end.

Definition compare_rotations (data : list Z) (a b : nat) : Z :=
  compare_rotations_loop data (length data) a b (seq 0 (length data)).

(** [indices.sort(key=cmp_to_key(cmp))].  Python's sort is stable and only
    ever asks whether [x < y], which [cmp_to_key] answers by [cmp(x, y) < 0].
    For a comparator that is a strict weak order the stable result does not
    depend on the algorithm; it is computed here by insertion from the
    right, each element going before the first one that is not below it. *)
Fixpoint sort_insert (cmp : nat → nat → Z) (x : nat) (l : list nat) : list nat :=
  match l with
  | [] => [x]
  | y :: l' => if (cmp y x <? 0)%Z then y :: sort_insert cmp x l' else x :: l
  end.

Definition list_sort (cmp : nat → nat → Z) (l : list nat) : list nat :=
  foldr (sort_insert cmp) [] l.

(** One round of [for pos, idx in enumerate(indices)]. *)
Definition bwt_emit (data : list Z) (st : list Z * Z) (p : nat * nat) : list Z * Z :=
  let '(bwt_data, original_index) := st in
  let '(pos, idx) := p in
  (bwt_data ++ [if 0 <? idx then byte_at data (idx - 1)
                else byte_at data (length data - 1)],
   if idx =? 0 then Z.of_nat pos else original_index).

(** [indices] after the sort.  The [except ImportError] fallback cannot run:
    [cmp_to_key] is imported at the top of the module. *)
Definition sorted_rotations (data : list Z) : list nat :=
  list_sort (compare_rotations data) (seq 0 (length data)).

Definition perform_burrows_wheeler_transform (data : list Z) : list Z * Z :=
  match data with
  | [] => ([], 0%Z)
  | _ =>
      let indices := sorted_rotations data in
      foldl (bwt_emit data) ([], (-1)%Z) (imap pair indices)
  end.

(** *** perform_move_to_front_transform *)

(** [list(range(256))] *)
Definition fresh_alphabet : list Z := seqZ 0 256.

Definition mtf_encode_step (st : list Z * list Z) (byte : Z) : result (list Z * list Z) :=
  let '(alphabet, out) := st in
  idx ← list_index byte alphabet;
  Ok (byte :: delete idx alphabet, out ++ [Z.of_nat idx]).

Definition perform_move_to_front_transform (data : list Z) : result (list Z) :=
  snd <$> foldlM mtf_encode_step (fresh_alphabet, []) data.

(** *** perform_run_length_encoding *)

(** [data[i] == v] under the guard [i < n]. *)
Definition at_is (data : list Z) (i : nat) (v : Z) : bool :=
  match data !! i with Some w => (w =? v)%Z | None => false end.

(** [while i + count < n and data[i + count] == current and count < 127] *)
Fixpoint run_count_loop (fuel : nat) (data : list Z) (i : nat) (current : Z)
    (count : nat) : result nat :=
  if (i + count <? length data) && at_is data (i + count) current && (count <? 127)
  then match fuel with
       | 0 => OutOfFuel
       | S fuel' => run_count_loop fuel' data i current (count + 1)
       end
  else Ok count.

(** [data[j] == data[j + 1] == data[j + 2]] under the guard [j + 2 < n]. *)
Definition three_equal (data : list Z) (j : nat) : bool :=
  match data !! j, data !! (j + 1), data !! (j + 2) with
  | Some x, Some y, Some z => (x =? y)%Z && (y =? z)%Z
  | _, _, _ => false
  end.

(** [while i + run_length < n and run_length < 127] *)
Fixpoint raw_loop (fuel : nat) (data : list Z) (i run_length : nat)
    (raw_data : list Z) : result (nat * list Z) :=
  if (i + run_length <? length data) && (run_length <? 127) then
    if (i + run_length + 2 <? length data) && three_equal data (i + run_length)
    then Ok (run_length, raw_data)
    else match fuel with
         | 0 => OutOfFuel
         | S fuel' =>
             v ← list_get data (i + run_length);
             raw_data' ← bytearray_append raw_data v;
             raw_loop fuel' data i (run_length + 1) raw_data'
         end
  else Ok (run_length, raw_data).

(** [while i < n] *)
Fixpoint rle_loop (fuel : nat) (data : list Z) (i : nat) (encoded : list Z)
    : result (list Z) :=
  if i <? length data then
    match fuel with
    | 0 => OutOfFuel
    | S fuel' =>
        current ← list_get data i;
        count ← run_count_loop 127 data i current 1;
        if 2 <? count then
          encoded ← bytearray_append encoded (Z.lor 128 (Z.of_nat count));
          encoded ← bytearray_append encoded current;
          rle_loop fuel' data (i + count) encoded
        else
          '(run_length, raw_data) ← raw_loop 127 data i 0 [];
          encoded ← bytearray_append encoded (Z.of_nat run_length);
          rle_loop fuel' data (i + run_length) (encoded ++ raw_data)
    end
  else Ok encoded.

Definition perform_run_length_encoding (data : list Z) : result (list Z) :=
  match data with
  | [] => Ok []
  | _ => rle_loop (length data) data 0 []
  end.

(** *** compress_file *)

Definition store_container (data : list Z) : list Z := replicate 4 0%Z ++ data.

(** The [try] block, lines 160-206: the bytes written to the output file. *)
Definition compress_file_try (data : list Z) : result (list Z) :=
  if length data <? 512 then Ok (store_container data)
  else
    let '(bwt_data, index) := perform_burrows_wheeler_transform data in
    mtf_data ← perform_move_to_front_transform bwt_data;
    rle_data ← perform_run_length_encoding mtf_data;
    let compressed_size := length rle_data + 4 in
    if length data <=? compressed_size then Ok (store_container data)
    else
      header ← to_bytes4 index;
      Ok (header ++ rle_data).

(** [except Exception], lines 208-213: whatever the [try] block raises is
    caught, the output file is removed if it exists and the process leaves
    through [sys.exit(1)]; no output is left behind. *)
Definition compress_file (data : list Z) : result (list Z) :=
  match compress_file_try data with
  | Ok out => Ok out
  | Raise _ => Raise (SystemExit 1)
  | OutOfFuel => OutOfFuel
  end.

(** ** decoder.py *)

(** *** reverse_burrows_wheeler_transform *)

Definition count_step (char_counts : gmap Z nat) (byte : Z) : gmap Z nat :=
  <[byte := dict_get0 char_counts byte + 1]> char_counts.

Definition cumulate_step (char_counts : gmap Z nat) (st : gmap Z nat * nat) (byte : Z)
    : result (gmap Z nat * nat) :=
  let '(cumulative_counts, total) := st in
  c ← dict_get char_counts byte;
  Ok (<[byte := total]> cumulative_counts, total + c).

Definition rank_step (cumulative_counts : gmap Z nat) (st : gmap Z nat * list nat)
    (byte : Z) : result (gmap Z nat * list nat) :=
  let '(char_ranks, transformation_vector) := st in
  let rank := dict_get0 char_ranks byte in
  c ← dict_get cumulative_counts byte;
  Ok (<[byte := rank + 1]> char_ranks, transformation_vector ++ [c + rank]).

Definition walk_step (transformed_data : list Z) (transformation_vector : list nat)
    (st : list Z * nat) (i : nat) : result (list Z * nat) :=
  let '(out, current_pos) := st in
  b ← list_get transformed_data current_pos;
  next ← list_get transformation_vector current_pos;
  Ok (<[i := b]> out, next).

Definition reverse_burrows_wheeler_transform (transformed_data : list Z)
    (original_index : Z) : result (list Z) :=
  match transformed_data with
  | [] => Ok []
  | _ =>
      let n := length transformed_data in
      if ((original_index <? 0) || (Z.of_nat n <=? original_index))%Z
      then Raise (ValueError OriginalIndexOutOfRange)
      else
        let char_counts := foldl count_step ∅ transformed_data in
        '(cumulative_counts, _) ←
          foldlM (cumulate_step char_counts) (∅, 0) (sorted_keys char_counts);
        '(_, transformation_vector) ←
          foldlM (rank_step cumulative_counts) (∅, []) transformed_data;
        '(out, _) ←
          foldlM (walk_step transformed_data transformation_vector)
                 (replicate n 0%Z, Z.to_nat original_index) (reverse (seq 0 n));
        Ok out
  end.

(** *** reverse_move_to_front_transform *)

(** One round of [for idx in encoded_indices].  The loop is entered only after
    the range filter has passed, so [idx] is not negative here and
    [alphabet[idx]], [alphabet.pop(idx)] count from the front. *)
Definition mtf_decode_step (st : list Z * list Z) (idx : Z) : result (list Z * list Z) :=
  let '(alphabet, out) := st in
  if (Z.of_nat (length alphabet) <=? idx)%Z then Raise (ValueError RankBeyondAlphabet)
  else
    char ← list_get alphabet (Z.to_nat idx);
    out ← bytearray_append out char;
    if (idx =? 0)%Z then Ok (alphabet, out)
    else Ok (char :: delete (Z.to_nat idx) alphabet, out).

Definition reverse_move_to_front_transform (encoded_indices : list Z) : result (list Z) :=
  match encoded_indices with
  | [] => Ok []
  | _ =>
      let invalid_indices :=
        filter (λ idx, (idx < 0)%Z ∨ (256 ≤ idx)%Z) encoded_indices in
      match invalid_indices with
      | _ :: _ => Raise (ValueError RankOutOfRange)
      | [] => snd <$> foldlM mtf_decode_step (fresh_alphabet, []) encoded_indices
      end
  end.

(** *** decode_run_length_encoding *)

(** [while position < data_length] *)
Fixpoint rle_decode_loop (fuel : nat) (compressed_data : list Z) (position : nat)
    (decoded_values : list Z) : result (list Z) :=
  let data_length := length compressed_data in
  if position <? data_length then
    match fuel with
    | 0 => OutOfFuel
    | S fuel' =>
        header ← list_get compressed_data position;
        let position := position + 1 in
        if negb (Z.land header 128 =? 0)%Z then
          let run_length := Z.land header 127 in
          if data_length <=? position then Raise (ValueError RunValueMissing)
          else
            value ← list_get compressed_data position;
            let position := position + 1 in
            rle_decode_loop fuel' compressed_data position
              (decoded_values ++ replicate (Z.to_nat run_length) value)
        else
          let raw_length := Z.to_nat header in
          if data_length <? position + raw_length then Raise (ValueError RawBytesMissing)
          else
            let raw_data := take raw_length (drop position compressed_data) in
            rle_decode_loop fuel' compressed_data (position + raw_length)
              (decoded_values ++ raw_data)
    end
  else Ok decoded_values.

Definition decode_run_length_encoding (compressed_data : list Z) : result (list Z) :=
  match compressed_data with
  | [] => Ok []
  | _ => rle_decode_loop (length compressed_data) compressed_data 0 []
  end.

(** *** decompress_file *)

(** The [except Exception] clause, lines 221-226, removes the partly written
    output and re-raises: the exception of the [try] block is the exception
    of [decompress_file]. *)
Definition decompress_file (file : list Z) : result (list Z) :=
  let header := take 4 file in
  let compressed_data := drop 4 file in
  if decide (header = [0; 0; 0; 0]%Z) then Ok compressed_data
  else
    let original_index := from_bytes_big header in
    mtf_indices ← decode_run_length_encoding compressed_data;
    bwt_data ← reverse_move_to_front_transform mtf_indices;
    reverse_burrows_wheeler_transform bwt_data original_index.

(** ** The specification's names *)

Definition BST_forward := perform_burrows_wheeler_transform.
Definition BST_inverse := reverse_burrows_wheeler_transform.
Definition RRT_forward := perform_move_to_front_transform.
Definition RRT_inverse := reverse_move_to_front_transform.
Definition RC_encode := perform_run_length_encoding.
Definition RC_decode := decode_run_length_encoding.
Definition encode := compress_file.
Definition decode := decompress_file.

(** ** Test vectors *)

Example bwt_banana :
  perform_burrows_wheeler_transform [98; 97; 110; 97; 110; 97]%Z
  = ([110; 110; 98; 97; 97; 97]%Z, 3%Z).
Proof. reflexivity. Qed.

Example bwt_periodic :
  perform_burrows_wheeler_transform [97; 98; 97; 98]%Z = ([98; 98; 97; 97]%Z, 0%Z).
Proof. reflexivity. Qed.

Example reverse_bwt_banana :
  reverse_burrows_wheeler_transform [110; 110; 98; 97; 97; 97]%Z 3
  = Ok [98; 97; 110; 97; 110; 97]%Z.
Proof. by vm_compute. Qed.

Example reverse_bwt_index_n :
  reverse_burrows_wheeler_transform [110; 110; 98; 97; 97; 97]%Z 6
  = Raise (ValueError OriginalIndexOutOfRange).
Proof. reflexivity. Qed.

Example mtf_banana :
  perform_move_to_front_transform [98; 97; 110; 97; 110; 97]%Z
  = Ok [98; 98; 110; 1; 1; 1]%Z.
Proof. by vm_compute. Qed.

Example reverse_mtf_rank_256 :
  reverse_move_to_front_transform [0; 256]%Z = Raise (ValueError RankOutOfRange).
Proof. reflexivity. Qed.

Example rle_runs :
  perform_run_length_encoding [98; 98; 110; 1; 1; 1; 0; 0; 0; 0; 0]%Z
  = Ok [3; 98; 98; 110; 131; 1; 133; 0]%Z.
Proof. by vm_compute. Qed.

Example rle_decode_runs :
  decode_run_length_encoding [3; 98; 98; 110; 131; 1; 133; 0]%Z
  = Ok [98; 98; 110; 1; 1; 1; 0; 0; 0; 0; 0]%Z.
Proof. by vm_compute. Qed.

Example rle_decode_missing_value :
  decode_run_length_encoding [131]%Z = Raise (ValueError RunValueMissing).
Proof. reflexivity. Qed.

Example rle_decode_missing_literals :
  decode_run_length_encoding [3; 98; 98]%Z = Raise (ValueError RawBytesMissing).
Proof. reflexivity. Qed.

Example compress_empty : compress_file [] = Ok [0; 0; 0; 0]%Z.
Proof. reflexivity. Qed.

Example compress_ten_A :
  compress_file (replicate 10 65%Z) = Ok ([0; 0; 0; 0]%Z ++ replicate 10 65%Z).
Proof. reflexivity. Qed.

Example decompress_store_mode :
  decompress_file [0; 0; 0; 0; 7; 8; 9]%Z = Ok [7; 8; 9]%Z.
Proof. reflexivity. Qed.

(** ** Generic facts about results and loops *)

Lemma foldlM_app {A B} (f : A → B → result A) (a : A) (l k : list B) :
  foldlM f a (l ++ k) = (a' ← foldlM f a l; foldlM f a' k).
Proof.
  revert a. induction l as [|x l IH]; intros a; simpl; [done|].
  destruct (f a x) as [a'| |]; simpl; [apply IH|done..].
Qed.

Lemma foldlM_snoc {A B} (f : A → B → result A) (a : A) (l : list B) (x : B) :
  foldlM f a (l ++ [x]) = (a' ← foldlM f a l; f a' x).
Proof.
  rewrite foldlM_app. destruct (foldlM f a l) as [a'| |]; simpl; [|done..].
  by destruct (f a' x).
Qed.

Lemma Ok_inj {A} (a b : A) : Ok a = Ok b → a = b.
Proof. congruence. Qed.

Lemma list_get_Ok {A} (l : list A) (i : nat) (x : A) :
  list_get l i = Ok x ↔ l !! i = Some x.
Proof. unfold list_get. destruct (l !! i); split; congruence. Qed.

Lemma list_get_lookup {A} (l : list A) (i : nat) (x : A) :
  l !! i = Some x → list_get l i = Ok x.
Proof. apply list_get_Ok. Qed.

Lemma bytearray_append_Ok (buf : list Z) (v : Z) :
  is_byte v → bytearray_append buf v = Ok (buf ++ [v]).
Proof. intros Hv. unfold bytearray_append. by rewrite decide_True. Qed.

(** ** Move-to-front *)

Section mtf.

Lemma list_index_Ok (x : Z) (l : list Z) :
  x ∈ l → ∃ i, list_index x l = Ok i ∧ l !! i = Some x.
Proof.
  induction l as [|y l IH]; intros Hin; [by apply elem_of_nil in Hin|].
  simpl. destruct (Z.eqb_spec y x) as [->|Hne].
  - by exists 0.
  - apply elem_of_cons in Hin as [?|Hin]; [congruence|].
    destruct (IH Hin) as (i & -> & Hi). by exists (S i).
Qed.

(** Both directions keep the alphabet a rearrangement of [0..255]. *)
Definition alphabet_ok (alphabet : list Z) : Prop := alphabet ≡ₚ fresh_alphabet.

Lemma fresh_alphabet_spec (b : Z) : b ∈ fresh_alphabet ↔ is_byte b.
Proof. unfold fresh_alphabet, is_byte. rewrite elem_of_seqZ. lia. Qed.

Lemma alphabet_ok_elem (alphabet : list Z) (b : Z) :
  alphabet_ok alphabet → b ∈ alphabet ↔ is_byte b.
Proof. unfold alphabet_ok. intros ->. apply fresh_alphabet_spec. Qed.

Lemma alphabet_ok_length (alphabet : list Z) :
  alphabet_ok alphabet → length alphabet = 256.
Proof. intros H. by apply Permutation_length in H. Qed.

Lemma alphabet_ok_front (alphabet : list Z) (i : nat) (b : Z) :
  alphabet_ok alphabet → alphabet !! i = Some b →
  alphabet_ok (b :: delete i alphabet).
Proof.
  unfold alphabet_ok. intros <- Hi. symmetry. by apply delete_Permutation.
Qed.

Lemma front_fixed (alphabet : list Z) (b : Z) :
  alphabet !! 0 = Some b → b :: delete 0 alphabet = alphabet.
Proof. by destruct alphabet as [|? ?]; intros [= ->]. Qed.

(** One encoder round is undone by one decoder round, from equal alphabets
    to equal alphabets. *)
Lemma mtf_step_inverse (alphabet out out' : list Z) (byte : Z) :
  alphabet_ok alphabet → is_byte byte →
  ∃ idx alphabet',
    mtf_encode_step (alphabet, out) byte = Ok (alphabet', out ++ [idx])
    ∧ mtf_decode_step (alphabet, out') idx = Ok (alphabet', out' ++ [byte])
    ∧ is_byte idx ∧ alphabet_ok alphabet'.
Proof.
  intros Hok Hb.
  destruct (list_index_Ok byte alphabet) as (i & Hi & Hget);
    [by apply alphabet_ok_elem|].
  pose proof (lookup_lt_Some _ _ _ Hget) as Hlt.
  pose proof (alphabet_ok_length _ Hok) as Hlen.
  exists (Z.of_nat i), (byte :: delete i alphabet).
  unfold mtf_encode_step, mtf_decode_step. rewrite Hi. simpl.
  split; [done|]. split; [|split; [unfold is_byte; lia|by eapply alphabet_ok_front]].
  destruct (Z.leb_spec (Z.of_nat (length alphabet)) (Z.of_nat i)); [lia|].
  rewrite Nat2Z.id. unfold list_get. rewrite Hget. simpl.
  rewrite bytearray_append_Ok by done. simpl.
  destruct (Z.eqb_spec (Z.of_nat i) 0) as [Hz|Hz]; [|done].
  assert (i = 0) as -> by lia. by rewrite front_fixed.
Qed.

Lemma mtf_loops_inverse (data alphabet out out' : list Z) :
  alphabet_ok alphabet → is_bytes data →
  ∃ ranks alphabet',
    foldlM mtf_encode_step (alphabet, out) data = Ok (alphabet', out ++ ranks)
    ∧ foldlM mtf_decode_step (alphabet, out') ranks = Ok (alphabet', out' ++ data)
    ∧ is_bytes ranks ∧ length ranks = length data.
Proof.
  intros Hok Hdata. revert alphabet out out' Hok.
  induction Hdata as [|byte data Hb Hdata IH]; intros alphabet out out' Hok.
  - exists [], alphabet. rewrite !app_nil_r. repeat split. constructor.
  - destruct (mtf_step_inverse alphabet out out' byte Hok Hb)
      as (idx & alphabet1 & Henc & Hdec & Hidx & Hok1).
    destruct (IH alphabet1 (out ++ [idx]) (out' ++ [byte]) Hok1)
      as (ranks & alphabet2 & Henc2 & Hdec2 & Hranks & Hlen).
    exists (idx :: ranks), alphabet2.
    cbn [foldlM]. rewrite Henc, Hdec. simpl.
    rewrite Henc2, Hdec2, <- !app_assoc. simpl.
    repeat split; [by constructor|by f_equal].
Qed.

Lemma no_invalid_indices (ranks : list Z) :
  is_bytes ranks → filter (λ idx, (idx < 0)%Z ∨ (256 ≤ idx)%Z) ranks = [].
Proof.
  induction 1 as [|r ranks Hr _ IH]; [done|].
  rewrite filter_cons_False; [done|]. unfold is_byte in Hr. lia.
Qed.

(** The decoder does not raise on ranks that are byte values. *)
Lemma mtf_decode_loop_total (ranks alphabet out : list Z) :
  alphabet_ok alphabet → is_bytes ranks →
  ∃ alphabet' bytes,
    foldlM mtf_decode_step (alphabet, out) ranks = Ok (alphabet', out ++ bytes)
    ∧ is_bytes bytes.
Proof.
  intros Hok Hranks. revert alphabet out Hok.
  induction Hranks as [|idx ranks Hidx _ IH]; intros alphabet out Hok.
  - exists alphabet, []. rewrite app_nil_r. split; [done|constructor].
  - pose proof (alphabet_ok_length _ Hok) as Hlen.
    destruct (lookup_lt_is_Some_2 alphabet (Z.to_nat idx)) as [char Hchar];
      [unfold is_byte in Hidx; lia|].
    assert (is_byte char) as Hc.
    { eapply alphabet_ok_elem; [done|]. by eapply list_elem_of_lookup_2. }
    assert (∃ alphabet1, mtf_decode_step (alphabet, out) idx = Ok (alphabet1, out ++ [char])
                         ∧ alphabet_ok alphabet1) as (alphabet1 & Hstep & Hok1).
    { unfold mtf_decode_step.
      destruct (Z.leb_spec (Z.of_nat (length alphabet)) idx);
        [unfold is_byte in Hidx; lia|].
      unfold list_get. rewrite Hchar. simpl.
      rewrite bytearray_append_Ok by done. simpl.
      destruct (idx =? 0)%Z; eexists; split; try done.
      by eapply alphabet_ok_front. }
    destruct (IH alphabet1 (out ++ [char]) Hok1) as (alphabet2 & bytes & Hrest & Hbytes).
    exists alphabet2, (char :: bytes). cbn [foldlM]. rewrite Hstep. simpl.
    rewrite Hrest, <- app_assoc. split; [done|by constructor].
Qed.

End mtf.

(** ** Run-length codec *)

(** *** The record format, after the specification *)

Definition top_bit (header : Z) : bool := Z.testbit header 7.

(** A complete record and the values it stands for. *)
Inductive rc_record : list Z → list Z → Prop :=
  | rc_repeat (header value : Z) :
      top_bit header = true →
      rc_record [header; value] (replicate (Z.to_nat (Z.land header 127)) value)
  | rc_raw (header : Z) (literals : list Z) :
      top_bit header = false →
      length literals = Z.to_nat header →
      rc_record (header :: literals) literals.

(** A stream made of complete records only. *)
Inductive rc_stream : list Z → list Z → Prop :=
  | rc_done : rc_stream [] []
  | rc_next (r out s outs : list Z) :
      rc_record r out → rc_stream s outs → rc_stream (r ++ s) (out ++ outs).

(** A record cut short by the end of the stream. *)
Inductive rc_cut : list Z → exn → Prop :=
  | cut_repeat (header : Z) :
      top_bit header = true → rc_cut [header] (ValueError RunValueMissing)
  | cut_raw (header : Z) (literals : list Z) :
      top_bit header = false →
      length literals < Z.to_nat header →
      rc_cut (header :: literals) (ValueError RawBytesMissing).

(** A stream that ends in the middle of a record. *)
Inductive rc_truncated : list Z → exn → Prop :=
  | trunc_here (r : list Z) (e : exn) : rc_cut r e → rc_truncated r e
  | trunc_later (r out s : list Z) (e : exn) :
      rc_record r out → rc_truncated s e → rc_truncated (r ++ s) e.

Section rle.

Lemma byte_cases (P : Z → bool) :
  forallb P (seqZ 0 256) = true → ∀ b, is_byte b → P b = true.
Proof.
  intros HP b Hb. rewrite forallb_forall in HP. apply HP.
  apply list_elem_of_In, elem_of_seqZ. unfold is_byte in Hb. lia.
Qed.

Lemma header_flag (header : Z) :
  is_byte header → negb (Z.land header 128 =? 0)%Z = top_bit header.
Proof.
  intros Hb.
  apply (byte_cases (λ h, bool_decide (negb (Z.land h 128 =? 0)%Z = top_bit h)))
    in Hb; [by apply bool_decide_eq_true in Hb|by vm_compute].
Qed.

Lemma repeat_header (count : nat) :
  count < 128 →
  let header := Z.lor 128 (Z.of_nat count) in
  is_byte header ∧ top_bit header = true
  ∧ Z.to_nat (Z.land header 127) = count.
Proof.
  intros Hc.
  assert (is_byte (Z.of_nat count)) as Hb by (unfold is_byte; lia).
  apply (byte_cases (λ c, bool_decide ((c < 128)%Z →
           is_byte (Z.lor 128 c) ∧ top_bit (Z.lor 128 c) = true
           ∧ Z.land (Z.lor 128 c) 127 = c))) in Hb; [|by vm_compute].
  apply bool_decide_eq_true in Hb. destruct Hb as (?&?&Hl); [lia|].
  cbv zeta. rewrite Hl. split_and!; [done..|lia].
Qed.

Lemma raw_header (run_length : nat) :
  run_length < 128 →
  let header := Z.of_nat run_length in
  is_byte header ∧ top_bit header = false.
Proof.
  intros Hc.
  assert (is_byte (Z.of_nat run_length)) as Hb by (unfold is_byte; lia).
  split; [done|].
  apply (byte_cases (λ c, bool_decide ((c < 128)%Z → top_bit c = false))) in Hb;
    [|by vm_compute].
  apply bool_decide_eq_true in Hb. apply Hb. lia.
Qed.

Lemma drop_cons_inv {A} (l : list A) (p : nat) (x : A) (s : list A) :
  drop p l = x :: s → l !! p = Some x ∧ drop (S p) l = s ∧ p < length l.
Proof.
  intros Hd.
  assert (l !! p = Some x) as Hl.
  { rewrite <- (Nat.add_0_r p), <- lookup_drop, Hd. done. }
  split_and!; [done| |by eapply lookup_lt_Some].
  rewrite (drop_S _ _ _ Hl) in Hd. congruence.
Qed.

(** **** The decoder against the record format *)

Lemma rle_decode_loop_stream (data s out : list Z) :
  is_bytes data → rc_stream s out →
  ∀ fuel position acc,
    drop position data = s → length s ≤ fuel →
    rle_decode_loop fuel data position acc = Ok (acc ++ out).
Proof.
  intros Hdata Hs. induction Hs as [|r out s outs Hr Hs IH];
    intros fuel position acc Hdrop Hfuel.
  - assert (length data ≤ position) as Hge.
    { apply (f_equal length) in Hdrop. rewrite length_drop in Hdrop. simpl in *. lia. }
    rewrite app_nil_r. destruct fuel; simpl;
      by destruct (Nat.ltb_spec position (length data)); [lia|].
  - destruct Hr as [header value Htop|header literals Htop Hlen].
    + simpl in Hdrop, Hfuel.
      apply drop_cons_inv in Hdrop as (Hh & Hdrop & Hlt).
      apply drop_cons_inv in Hdrop as (Hv & Hdrop & Hlt').
      destruct fuel as [|fuel]; [lia|]. cbn [rle_decode_loop].
      destruct (Nat.ltb_spec position (length data)); [|lia].
      rewrite (list_get_lookup _ _ _ Hh). cbn [mbind result_bind].
      rewrite header_flag, Htop
        by (eapply Forall_lookup_1; [apply Hdata|apply Hh]).
      cbn [negb]. destruct (Nat.leb_spec (length data) (position + 1)); [lia|].
      rewrite !Nat.add_1_r, (list_get_lookup _ _ _ Hv). cbn [mbind result_bind].
      rewrite IH; [by rewrite app_assoc| |lia].
      done.
    + simpl in Hdrop, Hfuel. rewrite length_app in Hfuel.
      apply drop_cons_inv in Hdrop as (Hh & Hdrop & Hlt).
      assert (length (drop (S position) data) = length (literals ++ s)) as Hl
        by by rewrite Hdrop.
      rewrite length_drop, length_app in Hl.
      destruct fuel as [|fuel]; [lia|]. cbn [rle_decode_loop].
      destruct (Nat.ltb_spec position (length data)); [|lia].
      rewrite (list_get_lookup _ _ _ Hh). cbn [mbind result_bind].
      rewrite header_flag, Htop
        by (eapply Forall_lookup_1; [apply Hdata|apply Hh]).
      cbn [negb]. rewrite !Nat.add_1_r, <- Hlen.
      destruct (Nat.ltb_spec (length data) (S position + length literals)); [lia|].
      rewrite Hdrop, take_app_length.
      rewrite IH; [by rewrite app_assoc| |lia].
      by rewrite <- drop_drop, Hdrop, drop_app_length.
Qed.

Lemma rle_decode_loop_truncated (data s : list Z) (e : exn) :
  is_bytes data → rc_truncated s e →
  ∀ fuel position acc,
    drop position data = s → length s ≤ fuel →
    rle_decode_loop fuel data position acc = Raise e.
Proof.
  intros Hdata Hs. induction Hs as [r e Hcut|r out s e Hr Hs IH];
    intros fuel position acc Hdrop Hfuel.
  - destruct Hcut as [header Htop|header literals Htop Hlen].
    + simpl in Hfuel. apply drop_cons_inv in Hdrop as (Hh & Hdrop & Hlt).
      apply (f_equal length) in Hdrop. rewrite length_drop in Hdrop. simpl in Hdrop.
      destruct fuel as [|fuel]; [lia|]. cbn [rle_decode_loop].
      destruct (Nat.ltb_spec position (length data)); [|lia].
      rewrite (list_get_lookup _ _ _ Hh). cbn [mbind result_bind].
      rewrite header_flag, Htop
        by (eapply Forall_lookup_1; [apply Hdata|apply Hh]).
      cbn [negb]. by destruct (Nat.leb_spec (length data) (position + 1)); [|lia].
    + simpl in Hfuel. apply drop_cons_inv in Hdrop as (Hh & Hdrop & Hlt).
      apply (f_equal length) in Hdrop. rewrite length_drop in Hdrop.
      destruct fuel as [|fuel]; [lia|]. cbn [rle_decode_loop].
      destruct (Nat.ltb_spec position (length data)); [|lia].
      rewrite (list_get_lookup _ _ _ Hh). cbn [mbind result_bind].
      rewrite header_flag, Htop
        by (eapply Forall_lookup_1; [apply Hdata|apply Hh]).
      cbn [negb].
      by destruct (Nat.ltb_spec (length data) (position + 1 + Z.to_nat header)); [|lia].
  - destruct Hr as [header value Htop|header literals Htop Hlen].
    + simpl in Hdrop, Hfuel.
      apply drop_cons_inv in Hdrop as (Hh & Hdrop & Hlt).
      apply drop_cons_inv in Hdrop as (Hv & Hdrop & Hlt').
      destruct fuel as [|fuel]; [lia|]. cbn [rle_decode_loop].
      destruct (Nat.ltb_spec position (length data)); [|lia].
      rewrite (list_get_lookup _ _ _ Hh). cbn [mbind result_bind].
      rewrite header_flag, Htop
        by (eapply Forall_lookup_1; [apply Hdata|apply Hh]).
      cbn [negb]. destruct (Nat.leb_spec (length data) (position + 1)); [lia|].
      rewrite !Nat.add_1_r, (list_get_lookup _ _ _ Hv). cbn [mbind result_bind].
      apply IH; [done|lia].
    + simpl in Hdrop, Hfuel. rewrite length_app in Hfuel.
      apply drop_cons_inv in Hdrop as (Hh & Hdrop & Hlt).
      assert (length (drop (S position) data) = length (literals ++ s)) as Hl
        by by rewrite Hdrop.
      rewrite length_drop, length_app in Hl.
      destruct fuel as [|fuel]; [lia|]. cbn [rle_decode_loop].
      destruct (Nat.ltb_spec position (length data)); [|lia].
      rewrite (list_get_lookup _ _ _ Hh). cbn [mbind result_bind].
      rewrite header_flag, Htop
        by (eapply Forall_lookup_1; [apply Hdata|apply Hh]).
      cbn [negb]. rewrite !Nat.add_1_r, <- Hlen.
      destruct (Nat.ltb_spec (length data) (S position + length literals)); [lia|].
      apply IH; [|lia].
      by rewrite <- drop_drop, Hdrop, drop_app_length.
Qed.

Lemma decode_stream (data out : list Z) :
  is_bytes data → rc_stream data out → decode_run_length_encoding data = Ok out.
Proof.
  intros Hdata Hs. unfold decode_run_length_encoding.
  destruct data as [|b data]; [by inversion Hs as [|r ? s ? Hr]; [|destruct Hr]|].
  by apply (rle_decode_loop_stream _ _ _ Hdata Hs _ 0 []).
Qed.

Lemma decode_truncated (data : list Z) (e : exn) :
  is_bytes data → rc_truncated data e → decode_run_length_encoding data = Raise e.
Proof.
  intros Hdata Hs. unfold decode_run_length_encoding.
  destruct data as [|b data].
  - exfalso. inversion Hs as [r ? Hc|r ? s ? Hr]; subst.
    + inversion Hc.
    + by destruct Hr.
  - by apply (rle_decode_loop_truncated _ _ _ Hdata Hs _ 0 []).
Qed.

(** Every byte stream is either whole or cut. *)
Lemma rc_stream_or_truncated (s : list Z) :
  is_bytes s → (∃ out, rc_stream s out) ∨ (∃ e, rc_truncated s e).
Proof.
  remember (length s) as k eqn:Hk. revert s Hk.
  induction k as [k IH] using lt_wf_ind. intros s -> Hs.
  destruct s as [|header rest]; [left; exists []; constructor|].
  apply Forall_cons in Hs as [Hh Hrest].
  destruct (top_bit header) eqn:Htop.
  - destruct rest as [|value rest].
    + right. eexists. apply trunc_here. by constructor.
    + apply Forall_cons in Hrest as [_ Hrest].
      destruct (IH (length rest)) with (s := rest) as [[out Hout]|[e He]];
        [simpl; lia|done..| |].
      * left. eexists. apply (rc_next [header; value]); [by constructor|done].
      * right. exists e.
        by apply (trunc_later [header; value] _ _ _ (rc_repeat header value Htop)).
  - destruct (decide (length rest < Z.to_nat header)) as [Hlt|Hge].
    + right. eexists. apply trunc_here. by constructor.
    + assert (rc_record (header :: take (Z.to_nat header) rest)
                (take (Z.to_nat header) rest)) as Hr.
      { constructor; [done|]. rewrite length_take. lia. }
      destruct (IH (length (drop (Z.to_nat header) rest)))
        with (s := drop (Z.to_nat header) rest) as [[out Hout]|[e He]];
        [rewrite length_drop; simpl; lia|done|by apply Forall_drop| |].
      * left. exists (take (Z.to_nat header) rest ++ out).
        rewrite <- (take_drop (Z.to_nat header) rest) at 1.
        exact (rc_next (header :: _) _ _ _ Hr Hout).
      * right. exists e. rewrite <- (take_drop (Z.to_nat header) rest).
        exact (trunc_later (header :: _) _ _ _ Hr He).
Qed.

(** **** The encoder produces complete records *)

Lemma at_is_true (data : list Z) (j : nat) (v : Z) :
  at_is data j v = true ↔ data !! j = Some v.
Proof.
  unfold at_is. destruct (data !! j) as [w|]; [|done].
  destruct (Z.eqb_spec w v); split; congruence.
Qed.

Lemma three_equal_true (data : list Z) (j : nat) :
  three_equal data j = true →
  ∃ x, data !! j = Some x ∧ data !! (j + 1) = Some x ∧ data !! (j + 2) = Some x.
Proof.
  unfold three_equal.
  destruct (data !! j) as [x|], (data !! (j + 1)) as [y|], (data !! (j + 2)) as [z|];
    try done.
  intros [Hxy Hyz]%andb_prop. apply Z.eqb_eq in Hxy, Hyz. subst. by exists z.
Qed.

Lemma run_count_loop_spec (data : list Z) (i : nat) (current : Z) (fuel count : nat) :
  127 - count ≤ fuel → count ≤ 127 →
  (∀ k, k < count → data !! (i + k) = Some current) →
  ∃ c, run_count_loop fuel data i current count = Ok c
       ∧ count ≤ c ≤ 127
       ∧ (∀ k, k < c → data !! (i + k) = Some current)
       ∧ (c < 127 → data !! (i + c) ≠ Some current).
Proof.
  revert count. induction fuel as [|fuel IH]; intros count Hfuel Hcount Hrun.
  - assert (count = 127) as -> by lia. exists 127. simpl.
    rewrite andb_false_r. split_and!; [done|lia..|done|lia].
  - cbn [run_count_loop].
    destruct ((i + count <? length data) && at_is data (i + count) current
              && (count <? 127)) eqn:Hguard.
    + apply andb_prop in Hguard as [[_ Hat]%andb_prop Hlt].
      apply at_is_true in Hat. apply Nat.ltb_lt in Hlt.
      destruct (IH (count + 1)) as (c & Hc & Hle & Hall & Hmax); [lia..| |].
      * intros k Hk. destruct (decide (k = count)) as [->|]; [done|].
        apply Hrun. lia.
      * exists c. split_and!; [done|lia..|done|done].
    + exists count. split_and!; [done|lia..|done|].
      intros Hlt Hat. apply at_is_true in Hat as Hat'.
      apply lookup_lt_Some in Hat.
      apply andb_false_iff in Hguard as [[Hg|Hg]%andb_false_iff|Hg].
      * apply Nat.ltb_ge in Hg. lia.
      * congruence.
      * apply Nat.ltb_ge in Hg. lia.
Qed.

Lemma raw_loop_spec (data : list Z) (i fuel run_length : nat) :
  is_bytes data →
  127 - run_length ≤ fuel → run_length ≤ 127 → i + run_length ≤ length data →
  ∃ rl, raw_loop fuel data i run_length (take run_length (drop i data))
        = Ok (rl, take rl (drop i data))
        ∧ run_length ≤ rl ≤ 127 ∧ i + rl ≤ length data.
Proof.
  intros Hdata. revert run_length.
  induction fuel as [|fuel IH]; intros run_length Hfuel Hrl Hin.
  - assert (run_length = 127) as -> by lia. exists 127. simpl.
    rewrite andb_false_r. split_and!; [done|lia..].
  - cbn [raw_loop].
    destruct ((i + run_length <? length data) && (run_length <? 127)) eqn:Hguard;
      [|exists run_length; split_and!; [done|lia..]].
    destruct ((i + run_length + 2 <? length data) && three_equal data (i + run_length));
      [exists run_length; split_and!; [done|lia..]|].
    apply andb_prop in Hguard as [Hlt%Nat.ltb_lt Hlt'%Nat.ltb_lt].
    destruct (lookup_lt_is_Some_2 data (i + run_length) Hlt) as [v Hv].
    rewrite (list_get_lookup _ _ _ Hv). cbn [mbind result_bind].
    rewrite bytearray_append_Ok by (eapply Forall_lookup_1; [apply Hdata|apply Hv]).
    cbn [mbind result_bind].
    rewrite <- take_S_r by (by rewrite lookup_drop).
    rewrite Nat.add_1_r.
    destruct (IH (S run_length)) as (rl & Hrl' & Hle & Hin'); [lia..|].
    exists rl. split_and!; [done|lia..].
Qed.

Lemma raw_loop_progress (data : list Z) (i fuel : nat) :
  is_bytes data → 126 ≤ fuel → i < length data →
  ¬ (i + 2 < length data ∧ three_equal data i = true) →
  ∃ rl, raw_loop (S fuel) data i 0 [] = Ok (rl, take rl (drop i data))
        ∧ 1 ≤ rl ≤ 127 ∧ i + rl ≤ length data.
Proof.
  intros Hdata Hfuel Hi Hno. cbn [raw_loop]. rewrite !Nat.add_0_r.
  destruct (Nat.ltb_spec i (length data)); [|lia]. change (0 <? 127) with true. cbn [andb].
  destruct ((i + 2 <? length data) && three_equal data i) eqn:Hbreak.
  { apply andb_prop in Hbreak as [?%Nat.ltb_lt ?]. by destruct Hno. }
  destruct (lookup_lt_is_Some_2 data i Hi) as [v Hv].
  rewrite (list_get_lookup _ _ _ Hv). cbn [mbind result_bind].
  rewrite bytearray_append_Ok by (eapply Forall_lookup_1; [apply Hdata|apply Hv]).
  cbn [mbind result_bind app].
  destruct (raw_loop_spec data i fuel 1 Hdata) as (rl & Hrl & Hle & Hin); [lia..|].
  exists rl. split_and!; [|lia..].
  rewrite <- Hrl. f_equal.
  rewrite (take_S_r _ 0 v) by (by rewrite lookup_drop, Nat.add_0_r). by rewrite take_0.
Qed.

Lemma take_replicate_run (data : list Z) (i c : nat) (current : Z) :
  (∀ k, k < c → data !! (i + k) = Some current) →
  take c (drop i data) = replicate c current.
Proof.
  intros Hrun. apply list_eq. intros k.
  destruct (decide (k < c)) as [Hk|Hk].
  - rewrite lookup_take_lt, lookup_drop, Hrun, lookup_replicate_2 by done. done.
  - rewrite lookup_take_ge by lia. symmetry. apply lookup_replicate_None. lia.
Qed.

Lemma rle_loop_spec (data : list Z) (fuel i : nat) (encoded : list Z) :
  is_bytes data → length data - i ≤ fuel → i ≤ length data →
  ∃ tail, rle_loop fuel data i encoded = Ok (encoded ++ tail)
          ∧ rc_stream tail (drop i data) ∧ is_bytes tail.
Proof.
  intros Hdata. revert i encoded.
  induction fuel as [|fuel IH]; intros i encoded Hfuel Hi.
  { exists []. assert (i = length data) as -> by lia. simpl.
    rewrite Nat.ltb_irrefl, drop_all, app_nil_r. repeat constructor. }
  cbn [rle_loop]. destruct (Nat.ltb_spec i (length data)) as [Hlt|Hge]; cycle 1.
  { exists []. rewrite drop_ge, app_nil_r by done. repeat constructor. }
  destruct (lookup_lt_is_Some_2 data i Hlt) as [current Hcur].
  assert (is_byte current) as Hcb by (eapply Forall_lookup_1; [apply Hdata|apply Hcur]).
  rewrite (list_get_lookup _ _ _ Hcur). cbn [mbind result_bind].
  destruct (run_count_loop_spec data i current 127 1) as (c & -> & Hc & Hrun & Hmax);
    [lia..| |].
  { intros k Hk. assert (k = 0) as -> by lia. by rewrite Nat.add_0_r. }
  cbn [mbind result_bind].
  assert (i + c ≤ length data) as Hin.
  { assert (i + (c - 1) < length data); [|lia].
    eapply lookup_lt_Some, Hrun. lia. }
  destruct (Nat.ltb_spec 2 c) as [Hbig|Hsmall].
  - destruct (repeat_header c) as (Hhb & Htop & Hland); [lia|].
    rewrite !bytearray_append_Ok by done. cbn [mbind result_bind].
    rewrite bytearray_append_Ok by done. cbn [mbind result_bind].
    destruct (IH (i + c) ((encoded ++ [Z.lor 128 (Z.of_nat c)]) ++ [current]))
      as (tail & -> & Hs & Hb); [lia..|].
    exists ([Z.lor 128 (Z.of_nat c); current] ++ tail).
    split_and!; [by rewrite <- !app_assoc| |by repeat (constructor; [done|])].
    rewrite <- (take_drop c (drop i data)), drop_drop.
    apply rc_next; [|done].
    rewrite (take_replicate_run _ _ _ _ Hrun).
    pose proof (rc_repeat _ current Htop) as Hrec. by rewrite Hland in Hrec.
  - destruct (raw_loop_progress data i 126 Hdata) as (rl & -> & Hrl & Hin'); [lia..| |].
    { intros [Hi2 (x & Hx0 & Hx1 & Hx2)%three_equal_true].
      assert (x = current) as -> by congruence.
      assert (c = 1 ∨ c = 2) as [->| ->] by lia; (apply Hmax; [lia|done]). }
    cbn [mbind result_bind].
    destruct (raw_header rl) as (Hhb & Htop); [lia|].
    rewrite bytearray_append_Ok by done. cbn [mbind result_bind].
    destruct (IH (i + rl) ((encoded ++ [Z.of_nat rl]) ++ take rl (drop i data)))
      as (tail & -> & Hs & Hb); [lia..|].
    exists ((Z.of_nat rl :: take rl (drop i data)) ++ tail).
    split_and!.
    + by rewrite <- !app_assoc.
    + rewrite <- (take_drop rl (drop i data)) at 2. rewrite drop_drop.
      apply rc_next; [|done]. constructor; [done|].
      rewrite length_take, length_drop. lia.
    + apply Forall_app. split; [|done]. constructor; [done|].
      by apply Forall_take, Forall_drop.
Qed.

Lemma encode_stream (data : list Z) :
  is_bytes data →
  ∃ enc, perform_run_length_encoding data = Ok enc
         ∧ rc_stream enc data ∧ is_bytes enc.
Proof.
  intros Hdata.
  destruct (rle_loop_spec data (length data) 0 [] Hdata) as (tail & Hloop & Hs & Hb);
    [lia..|].
  unfold perform_run_length_encoding.
  destruct data as [|b l]; [exists []; repeat constructor|].
  by exists tail.
Qed.

End rle.

(** ** Counting *)

Fixpoint count {A} (f : A → bool) (l : list A) : nat :=
  match l with
  | [] => 0
  | x :: l' => (if f x then 1 else 0) + count f l'
  end.

Section count.
Context {A : Type}.
Implicit Types (f g h : A → bool) (l k : list A).

Lemma count_app f l k : count f (l ++ k) = count f l + count f k.
Proof. induction l as [|x l IH]; simpl; [done|]. rewrite IH. lia. Qed.

Lemma count_le_length f l : count f l ≤ length l.
Proof. induction l as [|x l IH]; simpl; [done|]. destruct (f x); lia. Qed.

Lemma count_all f l : (∀ x, x ∈ l → f x = true) → count f l = length l.
Proof.
  induction l as [|x l IH]; intros Hall; simpl; [done|].
  rewrite Hall, IH; [done| |by left]. intros y Hy. apply Hall. by right.
Qed.

Lemma count_none f l : (∀ x, x ∈ l → f x = false) → count f l = 0.
Proof.
  induction l as [|x l IH]; intros Hall; simpl; [done|].
  rewrite Hall, IH; [done| |by left]. intros y Hy. apply Hall. by right.
Qed.

Lemma count_ext f g l : (∀ x, x ∈ l → f x = g x) → count f l = count g l.
Proof.
  induction l as [|x l IH]; intros Hall; simpl; [done|].
  rewrite Hall, IH; [done| |by left]. intros y Hy. apply Hall. by right.
Qed.

(** What satisfies [f] satisfies [g] or [h]. *)
Lemma count_le_sum f g h l :
  (∀ x, x ∈ l → f x = true → g x = true ∨ h x = true) →
  count f l ≤ count g l + count h l.
Proof.
  induction l as [|x l IH]; intros Hall; simpl; [done|].
  assert (count f l ≤ count g l + count h l).
  { apply IH. intros y Hy. apply Hall. by right. }
  destruct (f x) eqn:Hf; [|lia].
  destruct (Hall x) as [-> | ->]; [by left|done|lia|destruct (g x); lia].
Qed.

Lemma count_le f g l :
  (∀ x, x ∈ l → f x = true → g x = true) → count f l ≤ count g l.
Proof.
  intros Hall. pose proof (count_le_sum f g (λ _, false) l) as H.
  rewrite (count_none (λ _, false)) in H by done.
  rewrite <- (Nat.add_0_r (count g l)). apply H. intros x Hx Hf. left. by apply Hall.
Qed.

(** [g] and [h] exclude each other and both imply [f]. *)
Lemma count_sum_le f g h l :
  (∀ x, x ∈ l → g x = true → f x = true) →
  (∀ x, x ∈ l → h x = true → f x = true) →
  (∀ x, x ∈ l → g x = true → h x = true → False) →
  count g l + count h l ≤ count f l.
Proof.
  induction l as [|x l IH]; intros Hg Hh Hgh; simpl; [done|].
  assert (count g l + count h l ≤ count f l).
  { apply IH; intros y Hy; [apply Hg|apply Hh|apply Hgh]; by right. }
  specialize (Hg x). specialize (Hh x). specialize (Hgh x).
  destruct (g x), (h x); try rewrite Hg by (done || by left);
    try rewrite Hh by (done || by left); try lia.
  destruct Hgh; (done || by left).
Qed.

Lemma count_map {B} (f : B → bool) (m : A → B) l :
  count f (m <$> l) = count (f ∘ m) l.
Proof. induction l as [|x l IH]; [done|]. rewrite fmap_cons. simpl. by rewrite IH. Qed.

Lemma count_Permutation f l k : l ≡ₚ k → count f l = count f k.
Proof. induction 1; simpl; lia. Qed.

Lemma count_take_S f l p x :
  l !! p = Some x → count f (take (S p) l) = count f (take p l) + (if f x then 1 else 0).
Proof.
  intros Hp. rewrite (take_S_r _ _ _ Hp), count_app. simpl. lia.
Qed.

End count.

(** ** Lexicographic comparison of byte strings *)

(** The value [compare_rotations] returns on two materialised rotations: the
    first non-zero difference, or zero. *)
Fixpoint lex_cmp (s t : list Z) : Z :=
  match s, t with
  | x :: s', y :: t' => if (x - y =? 0)%Z then lex_cmp s' t' else (x - y)%Z
  | _, _ => 0%Z
  end.

Section lex.
Local Open Scope Z_scope.

Lemma lex_cmp_cons (x y : Z) (s t : list Z) :
  lex_cmp (x :: s) (y :: t) = if x - y =? 0 then lex_cmp s t else x - y.
Proof. done. Qed.

Lemma lex_cmp_refl (s : list Z) : lex_cmp s s = 0.
Proof. induction s as [|x s IH]; simpl; [done|]. by rewrite Z.sub_diag. Qed.

Lemma lex_cmp_opp (s t : list Z) : lex_cmp t s = - lex_cmp s t.
Proof.
  revert t. induction s as [|x s IH]; intros [|y t]; simpl; try done.
  destruct (Z.eqb_spec (x - y) 0), (Z.eqb_spec (y - x) 0); try lia. apply IH.
Qed.

Lemma lex_cmp_eq (s t : list Z) :
  length s = length t → lex_cmp s t = 0 → s = t.
Proof.
  revert t. induction s as [|x s IH]; intros [|y t]; simpl; try done.
  intros [= Hlen]. destruct (Z.eqb_spec (x - y) 0); [|lia].
  intros Hc. f_equal; [lia|by apply IH].
Qed.

Lemma lex_cmp_trans (s t u : list Z) :
  length s = length t → length t = length u →
  lex_cmp s t ≤ 0 → lex_cmp t u ≤ 0 →
  lex_cmp s u ≤ 0 ∧ (lex_cmp s t < 0 ∨ lex_cmp t u < 0 → lex_cmp s u < 0).
Proof.
  revert t u. induction s as [|x s IH]; intros [|y t] [|z u]; simpl; try done;
    try lia.
  intros [= Hst] [= Htu].
  destruct (Z.eqb_spec (x - y) 0), (Z.eqb_spec (y - z) 0), (Z.eqb_spec (x - z) 0);
    try lia.
  by apply IH.
Qed.

Lemma lex_cmp_removelast (s t : list Z) :
  length s = length t → lex_cmp s t ≤ 0 →
  lex_cmp (removelast s) (removelast t) ≤ 0.
Proof.
  revert t. induction s as [|x s IH]; intros [|y t]; try done.
  intros [= Hlen] Hle.
  destruct s as [|x' s], t as [|y' t]; try done.
  change (lex_cmp (x :: removelast (x' :: s)) (y :: removelast (y' :: t)) ≤ 0).
  rewrite lex_cmp_cons in Hle |- *.
  destruct (Z.eqb_spec (x - y) 0); [|done].
  by apply IH.
Qed.

End lex.

(** ** The sorted rotations *)

Section rotations.
Variable data : list Z.
Local Abbreviation n := (length data).

(** The cyclic rotation that starts at offset [a], as a string. *)
Definition rotation (a : nat) : list Z :=
  (λ i, byte_at data ((a + i) `mod` n)) <$> seq 0 n.

(** The tie-break of a stable sort that starts from [0, 1, ..., n-1]: equal
    rotations keep the order of their offsets. *)
Definition rot_before (a b : nat) : Prop :=
  (lex_cmp (rotation a) (rotation b) < 0)%Z
  ∨ (lex_cmp (rotation a) (rotation b) = 0%Z ∧ a < b).

Definition rot_le (a b : nat) : Prop := (lex_cmp (rotation a) (rotation b) ≤ 0)%Z.

Lemma length_rotation (a : nat) : length (rotation a) = n.
Proof. unfold rotation. by rewrite length_fmap, length_seq. Qed.

Lemma compare_rotations_lex (a b : nat) :
  compare_rotations data a b = lex_cmp (rotation a) (rotation b).
Proof.
  unfold compare_rotations, rotation. generalize (seq 0 n) as range.
  induction range as [|i range IH]; [done|].
  rewrite !fmap_cons, lex_cmp_cons. cbn [compare_rotations_loop]. cbv zeta.
  by rewrite IH.
Qed.

Lemma rot_before_le (a b : nat) : rot_before a b → rot_le a b.
Proof. unfold rot_before, rot_le. lia. Qed.

Lemma rot_le_before_trans (a b c : nat) :
  rot_le a b → rot_before b c → a < c → rot_before a c.
Proof.
  unfold rot_le, rot_before. intros Hab Hbc Hac.
  destruct (lex_cmp_trans (rotation a) (rotation b) (rotation c)) as [Hle Hlt];
    [by rewrite !length_rotation..|done|lia|].
  destruct Hbc as [Hbc|[Hbc _]]; [left; apply Hlt; by right|].
  destruct (decide (lex_cmp (rotation a) (rotation c) < 0)%Z); [by left|].
  right. split; [lia|done].
Qed.

Global Instance rot_before_antisymm : AntiSymm (=) rot_before.
Proof.
  intros a b. unfold rot_before. rewrite (lex_cmp_opp (rotation a) (rotation b)). lia.
Qed.

(** *** The sort *)

Lemma sort_insert_Permutation (cmp : nat → nat → Z) (x : nat) (l : list nat) :
  sort_insert cmp x l ≡ₚ x :: l.
Proof.
  induction l as [|y l IH]; simpl; [done|].
  destruct (cmp y x <? 0)%Z; [|done]. rewrite IH. apply Permutation_swap.
Qed.

Lemma list_sort_Permutation (cmp : nat → nat → Z) (l : list nat) :
  list_sort cmp l ≡ₚ l.
Proof.
  induction l as [|x l IH]; simpl; [done|].
  by rewrite sort_insert_Permutation, IH.
Qed.

Lemma sort_insert_sorted (x : nat) (l : list nat) :
  StronglySorted rot_before l → Forall (lt x) l →
  StronglySorted rot_before (sort_insert (compare_rotations data) x l).
Proof.
  induction l as [|y l IH]; intros Hsorted Hx; simpl.
  { by repeat constructor. }
  apply StronglySorted_inv in Hsorted as [Hsorted Hy].
  apply Forall_cons in Hx as [Hxy Hx].
  rewrite compare_rotations_lex.
  destruct (Z.ltb_spec (lex_cmp (rotation y) (rotation x)) 0) as [Hlt|Hge].
  - constructor; [by apply IH|].
    rewrite sort_insert_Permutation. constructor; [by left|done].
  - assert (rot_le x y) as Hle.
    { unfold rot_le. rewrite (lex_cmp_opp (rotation y) (rotation x)). lia. }
    constructor; [by constructor|]. constructor.
    + unfold rot_before, rot_le in *. lia.
    + rewrite Forall_forall in Hy, Hx |- *. intros z Hz.
      by apply (rot_le_before_trans x y z); [|apply Hy|apply Hx].
Qed.

Lemma list_sort_sorted (l : list nat) :
  StronglySorted lt l →
  StronglySorted rot_before (list_sort (compare_rotations data) l).
Proof.
  induction l as [|x l IH]; intros Hl; simpl; [constructor|].
  apply StronglySorted_inv in Hl as [Hl Hx].
  apply sort_insert_sorted; [by apply IH|].
  by rewrite list_sort_Permutation.
Qed.

Lemma seq_sorted (s k : nat) : StronglySorted lt (seq s k).
Proof.
  revert s. induction k as [|k IH]; intros s; simpl; constructor; [apply IH|].
  apply Forall_forall. intros y Hy%elem_of_seq. lia.
Qed.

Lemma sorted_rotations_Permutation : sorted_rotations data ≡ₚ seq 0 n.
Proof. apply list_sort_Permutation. Qed.

Lemma sorted_rotations_sorted : StronglySorted rot_before (sorted_rotations data).
Proof. apply list_sort_sorted, seq_sorted. Qed.

Lemma length_sorted_rotations : length (sorted_rotations data) = n.
Proof. by rewrite sorted_rotations_Permutation, length_seq. Qed.

Lemma sorted_rotations_elem (a : nat) : a ∈ sorted_rotations data ↔ a < n.
Proof. rewrite sorted_rotations_Permutation, elem_of_seq. lia. Qed.

Lemma sorted_rotations_NoDup : NoDup (sorted_rotations data).
Proof. rewrite sorted_rotations_Permutation. apply NoDup_seq. Qed.

Lemma strongly_sorted_lookup {A} (R : relation A) (l : list A) (p q : nat) (a b : A) :
  StronglySorted R l → p < q → l !! p = Some a → l !! q = Some b → R a b.
Proof.
  intros Hl Hpq Hp Hq. rewrite <- (take_drop q l) in Hl.
  apply (StronglySorted_app_1_elem_of _ _ _ a b Hl).
  - apply list_elem_of_lookup. exists p. by rewrite lookup_take_lt.
  - apply list_elem_of_lookup. exists 0. by rewrite lookup_drop, Nat.add_0_r.
Qed.

Lemma sorted_rotations_le (p q a b : nat) :
  p ≤ q → sorted_rotations data !! p = Some a → sorted_rotations data !! q = Some b →
  rot_le a b.
Proof.
  intros Hpq Hp Hq. destruct (decide (p = q)) as [->|Hne].
  - assert (a = b) as -> by congruence. unfold rot_le. by rewrite lex_cmp_refl.
  - apply rot_before_le.
    apply (strongly_sorted_lookup _ _ p q _ _ sorted_rotations_sorted); [lia|done..].
Qed.

End rotations.

(** ** The inverse transform on an arbitrary buffer *)

Definition occ_lt (c : Z) (l : list Z) : nat := count (λ x, x <? c)%Z l.
Definition occ_eq (c : Z) (l : list Z) : nat := count (λ x, x =? c)%Z l.

Section last_first.
Variable T : list Z.
Local Abbreviation n := (length T).

(** The entry the decoder stores in [transformation_vector] at position [p]. *)
Definition LF (p : nat) : nat :=
  match T !! p with
  | Some c => occ_lt c T + occ_eq c (take p T)
  | None => 0
  end.

Lemma occ_eq_snoc (c b : Z) (l : list Z) :
  occ_eq c (l ++ [b]) = occ_eq c l + (if (b =? c)%Z then 1 else 0).
Proof. unfold occ_eq. rewrite count_app. simpl. lia. Qed.

Lemma occ_eq_pos (c : Z) (l : list Z) : c ∈ l ↔ 0 < occ_eq c l.
Proof.
  unfold occ_eq. induction l as [|x l IH]; simpl.
  - split; [by intros ?%elem_of_nil|lia].
  - rewrite elem_of_cons, IH. destruct (Z.eqb_spec x c); [split; [lia|by left]|].
    split; [intros [?|?]; [congruence|done]|by right].
Qed.

(** *** First loop: [char_counts] *)

Lemma char_counts_lookup (l : list Z) (c : Z) :
  foldl count_step ∅ l !! c = if occ_eq c l =? 0 then None else Some (occ_eq c l).
Proof.
  induction l as [|b l IH] using rev_ind; [done|].
  rewrite foldl_snoc, occ_eq_snoc. unfold count_step at 1.
  destruct (Z.eqb_spec b c) as [->|Hne].
  - rewrite lookup_insert_eq. unfold dict_get0. rewrite IH.
    destruct (Nat.eqb_spec (occ_eq c l) 0) as [->|?],
      (Nat.eqb_spec (occ_eq c l + 1) 0); try lia; done.
  - by rewrite lookup_insert_ne, IH, Nat.add_0_r.
Qed.

Lemma char_counts_get (c : Z) :
  c ∈ T → dict_get (foldl count_step ∅ T) c = Ok (occ_eq c T).
Proof.
  intros Hc%occ_eq_pos. unfold dict_get. rewrite char_counts_lookup.
  destruct (Nat.eqb_spec (occ_eq c T) 0); [lia|done].
Qed.

(** *** [sorted(char_counts)] *)

Lemma sorted_keys_elem (d : gmap Z nat) (c : Z) :
  c ∈ sorted_keys d ↔ is_Some (d !! c).
Proof.
  unfold sorted_keys. rewrite merge_sort_Permutation, list_elem_of_fmap. split.
  - intros ([k v] & -> & Hkv%elem_of_map_to_list). by exists v.
  - intros [v Hv]. exists (c, v). split; [done|]. by apply elem_of_map_to_list.
Qed.

Lemma sorted_keys_sorted (d : gmap Z nat) : StronglySorted Z.lt (sorted_keys d).
Proof.
  assert (StronglySorted Z.le (sorted_keys d)) as Hle
    by (apply StronglySorted_merge_sort; apply _).
  assert (NoDup (sorted_keys d)) as Hnd.
  { unfold sorted_keys. rewrite merge_sort_Permutation. apply NoDup_fst_map_to_list. }
  induction Hle as [|k ks Hks IH Hk]; [constructor|].
  apply NoDup_cons in Hnd as [Hnotin Hnd].
  constructor; [by apply IH|].
  rewrite Forall_forall in Hk |- *. intros x Hx.
  assert (k ≠ x) by (by intros ->). specialize (Hk x Hx). lia.
Qed.

Lemma keys_of_counts (c : Z) : c ∈ sorted_keys (foldl count_step ∅ T) ↔ c ∈ T.
Proof.
  rewrite sorted_keys_elem, char_counts_lookup, occ_eq_pos.
  destruct (Nat.eqb_spec (occ_eq c T) 0) as [->|?].
  - split; [by intros [? ?]|lia].
  - split; [lia|by eexists].
Qed.

(** *** Second loop: [cumulative_counts] *)

Definition mass (ks : list Z) : nat := count (λ x, bool_decide (x ∈ ks)) T.

Lemma mass_snoc (ks : list Z) (c : Z) :
  c ∉ ks → mass (ks ++ [c]) = mass ks + occ_eq c T.
Proof.
  intros Hc. unfold mass, occ_eq. induction T as [|x l IH]; simpl; [done|].
  rewrite IH. destruct (Z.eqb_spec x c) as [->|Hne].
  - rewrite (bool_decide_eq_true_2 (c ∈ ks ++ [c])), (bool_decide_eq_false_2 (c ∈ ks));
      [lia|done|]. apply elem_of_app. right. by left.
  - rewrite (bool_decide_ext (x ∈ ks ++ [c]) (x ∈ ks)); [lia|].
    rewrite elem_of_app, list_elem_of_singleton.
    split; [intros [?|?]; [done|congruence]|by left].
Qed.

Lemma mass_prefix (ks1 ks2 : list Z) (c : Z) :
  StronglySorted Z.lt (ks1 ++ c :: ks2) →
  (∀ x, x ∈ T → x ∈ ks1 ++ c :: ks2) →
  mass ks1 = occ_lt c T.
Proof.
  intros Hsorted Hall. apply count_ext. intros x Hx.
  apply StronglySorted_app in Hsorted as (Hlow & _ & [_ Hhigh]%StronglySorted_inv).
  rewrite Forall_forall in Hhigh.
  destruct (decide (x ∈ ks1)) as [Hin|Hnotin].
  - rewrite bool_decide_eq_true_2 by done. symmetry. apply Z.ltb_lt.
    apply (Hlow x c Hin). by left.
  - rewrite bool_decide_eq_false_2 by done. symmetry. apply Z.ltb_ge.
    apply Hall in Hx. apply elem_of_app in Hx as [?|Hx]; [done|].
    apply elem_of_cons in Hx as [->|Hx]; [lia|]. specialize (Hhigh x Hx). lia.
Qed.

Lemma cumulate_loop (ks1 ks2 : list Z) :
  let char_counts := foldl count_step ∅ T in
  sorted_keys char_counts = ks1 ++ ks2 →
  ∃ cumulative_counts,
    foldlM (cumulate_step char_counts) (∅, 0) ks1 = Ok (cumulative_counts, mass ks1)
    ∧ ∀ c, c ∈ ks1 → cumulative_counts !! c = Some (occ_lt c T).
Proof.
  intros char_counts. revert ks2.
  induction ks1 as [|c ks1 IH] using rev_ind; intros ks2 Hkeys.
  { exists ∅. split; [|by intros c ?%elem_of_nil].
    simpl. f_equal. f_equal. unfold mass. symmetry. apply count_none.
    intros x _. apply bool_decide_eq_false_2, not_elem_of_nil. }
  rewrite <- app_assoc in Hkeys.
  destruct (IH _ Hkeys) as (cum & Hcum & Hlook).
  pose proof (sorted_keys_sorted char_counts) as Hsorted. rewrite Hkeys in Hsorted.
  assert (∀ x, x ∈ T → x ∈ ks1 ++ [c] ++ ks2) as Hall.
  { intros x Hx. rewrite <- Hkeys. by apply keys_of_counts. }
  assert (c ∈ T) as HcT.
  { apply keys_of_counts. fold char_counts. rewrite Hkeys.
    apply elem_of_app. right. by left. }
  assert (c ∉ ks1) as Hfresh.
  { intros Hin. apply StronglySorted_app in Hsorted as (Hlow & _).
    assert (c < c)%Z; [|lia]. apply Hlow; [done|by left]. }
  exists (<[c := mass ks1]> cum). split.
  - rewrite foldlM_snoc, Hcum. cbn [mbind result_bind]. unfold cumulate_step.
    unfold char_counts. rewrite (char_counts_get c HcT). cbn [mbind result_bind].
    by rewrite mass_snoc.
  - intros x [Hx|Hx%list_elem_of_singleton]%elem_of_app.
    + rewrite lookup_insert_ne; [by apply Hlook|]. by intros ->.
    + subst x. rewrite lookup_insert_eq. f_equal. by eapply mass_prefix.
Qed.

(** *** Third loop: [transformation_vector] *)

Lemma rank_loop (cumulative_counts : gmap Z nat) (p : nat) :
  (∀ c, c ∈ T → cumulative_counts !! c = Some (occ_lt c T)) →
  p ≤ n →
  ∃ char_ranks,
    foldlM (rank_step cumulative_counts) (∅, []) (take p T)
      = Ok (char_ranks, LF <$> seq 0 p)
    ∧ ∀ c, dict_get0 char_ranks c = occ_eq c (take p T).
Proof.
  intros Hcum. induction p as [|p IH]; intros Hp.
  { exists ∅. by rewrite take_0. }
  destruct IH as (rk & Hloop & Hrk); [lia|].
  destruct (lookup_lt_is_Some_2 T p) as [b Hb]; [lia|].
  exists (<[b := dict_get0 rk b + 1]> rk). split.
  - rewrite (take_S_r _ _ _ Hb), foldlM_snoc, Hloop. cbn [mbind result_bind].
    unfold rank_step, dict_get. rewrite Hcum by (by eapply list_elem_of_lookup_2).
    cbn [mbind result_bind]. rewrite seq_S, fmap_app. simpl.
    unfold LF at 3. by rewrite Hb, Hrk.
  - intros c. rewrite (take_S_r _ _ _ Hb), occ_eq_snoc. unfold dict_get0 at 1.
    destruct (Z.eqb_spec b c) as [->|Hne].
    + by rewrite lookup_insert_eq, Hrk.
    + rewrite lookup_insert_ne by done. fold (dict_get0 rk c). rewrite Hrk. lia.
Qed.

Lemma LF_lt (p : nat) : p < n → LF p < n.
Proof.
  intros Hp. unfold LF. destruct (lookup_lt_is_Some_2 T p Hp) as [c Hc]. rewrite Hc.
  assert (occ_lt c T + occ_eq c T ≤ n) as Hsum.
  { unfold occ_lt, occ_eq. rewrite <- (count_all (λ _, true) T) by done.
    apply count_sum_le; [done..|]. intros x _ ?%Z.ltb_lt ?%Z.eqb_eq. lia. }
  assert (occ_eq c (take p T) < occ_eq c T); [|lia].
  rewrite <- (take_drop (S p) T) at 2. unfold occ_eq.
  rewrite count_app, (count_take_S _ _ _ _ Hc), Z.eqb_refl. lia.
Qed.

Lemma iter_LF_lt (k start : nat) : start < n → Nat.iter k LF start < n.
Proof. intros Hs. induction k as [|k IH]; simpl; [done|by apply LF_lt]. Qed.

(** *** Fourth loop: the backward walk *)

Lemma walk_loop (vector : list nat) (start k : nat) :
  vector = LF <$> seq 0 n → start < n → k ≤ n →
  foldlM (walk_step T vector) (replicate n 0%Z, start) (reverse (seq (n - k) k))
  = Ok (replicate (n - k) 0%Z
          ++ ((λ j, byte_at T (Nat.iter j LF start)) <$> reverse (seq 0 k)),
        Nat.iter k LF start).
Proof.
  intros -> Hstart. induction k as [|k IH]; intros Hk.
  { simpl. by rewrite Nat.sub_0_r, app_nil_r. }
  replace (seq (n - S k) (S k)) with ((n - S k) :: seq (n - k) k)
    by (simpl; do 2 f_equal; lia).
  rewrite reverse_cons, foldlM_snoc, IH by lia. cbn [mbind result_bind].
  pose proof (iter_LF_lt k start Hstart) as Hcur.
  destruct (lookup_lt_is_Some_2 T _ Hcur) as [b Hb].
  unfold walk_step. rewrite (list_get_lookup _ _ _ Hb). cbn [mbind result_bind].
  rewrite (list_get_lookup _ _ (LF (Nat.iter k LF start))); cycle 1.
  { rewrite list_lookup_fmap, lookup_seq_lt by done. done. }
  cbn [mbind result_bind]. f_equal. f_equal.
  replace (n - k) with (S (n - S k)) by lia.
  rewrite replicate_S_end, <- app_assoc.
  rewrite insert_app_r_alt by (by rewrite length_replicate).
  rewrite length_replicate, Nat.sub_diag, (seq_S k 0), reverse_snoc. simpl.
  do 2 f_equal. unfold byte_at. by rewrite (nth_lookup_Some _ _ _ _ Hb).
Qed.

(** *** The whole function *)

Lemma reverse_bwt_walk (original_index : Z) :
  T ≠ [] → (0 ≤ original_index < Z.of_nat n)%Z →
  reverse_burrows_wheeler_transform T original_index
  = Ok ((λ j, byte_at T (Nat.iter j LF (Z.to_nat original_index)))
          <$> reverse (seq 0 n)).
Proof.
  intros Hne Hidx. unfold reverse_burrows_wheeler_transform.
  destruct T as [|b0 T0] eqn:ET; [done|]. rewrite <- ET in *. clear ET Hne.
  destruct (Z.ltb_spec original_index 0); [lia|].
  destruct (Z.leb_spec (Z.of_nat n) original_index); [lia|]. cbn [orb].
  destruct (cumulate_loop (sorted_keys (foldl count_step ∅ T)) [])
    as (cum & -> & Hcum); [by rewrite app_nil_r|].
  cbn [mbind result_bind].
  destruct (rank_loop cum n) as (rk & Hrank & _); [|done|].
  { intros c Hc. by apply Hcum, keys_of_counts. }
  rewrite firstn_all in Hrank. rewrite Hrank. cbn [mbind result_bind].
  pose proof (walk_loop (LF <$> seq 0 n) (Z.to_nat original_index) n) as Hwalk.
  rewrite Nat.sub_diag in Hwalk. rewrite Hwalk by (done || lia).
  done.
Qed.

End last_first.

(** ** The inverse transform on the output of the forward transform *)

Lemma elem_of_drop_lookup {A} (x : A) (k : nat) (l : list A) :
  x ∈ drop k l → ∃ i, l !! i = Some x ∧ k ≤ i.
Proof.
  intros [i Hi]%list_elem_of_lookup. rewrite lookup_drop in Hi.
  exists (k + i). split; [done|lia].
Qed.

(** Rotate a string right by one place. *)
Definition cyc (s : list Z) : list Z :=
  match last s with
  | Some x => x :: removelast s
  | None => []
  end.

Lemma cyc_snoc (l : list Z) (x : Z) : cyc (l ++ [x]) = x :: l.
Proof. unfold cyc. by rewrite last_snoc, removelast_last. Qed.

Section inversion.
Variable data : list Z.
Local Abbreviation n := (length data).
Hypothesis data_nonempty : 0 < n.

Local Abbreviation σ := (sorted_rotations data).

(** The offset one place before [a], cyclically. *)
Definition pred_rot (a : nat) : nat := (a + (n - 1)) `mod` n.

(** The byte the encoder emits for the rotation at offset [a]. *)
Definition emitted (a : nat) : Z :=
  if 0 <? a then byte_at data (a - 1) else byte_at data (n - 1).

Lemma pred_rot_lt (a : nat) : pred_rot a < n.
Proof. unfold pred_rot. apply Nat.mod_upper_bound. lia. Qed.

Lemma emitted_pred (a : nat) : a < n → emitted a = byte_at data (pred_rot a).
Proof.
  intros Ha. unfold emitted, pred_rot. destruct (Nat.ltb_spec 0 a).
  - replace (a + (n - 1)) with ((a - 1) + 1 * n) by lia.
    rewrite Nat.Div0.mod_add, Nat.mod_small by lia. done.
  - assert (a = 0) as -> by lia. by rewrite Nat.add_0_l, Nat.mod_small by lia.
Qed.

Lemma rotation_pred (a : nat) : rotation data (pred_rot a) = cyc (rotation data a).
Proof.
  unfold rotation. destruct n as [|m] eqn:En; [lia|].
  replace (cyc ((λ i, byte_at data ((a + i) `mod` S m)) <$> seq 0 (S m)))
    with (cyc (((λ i, byte_at data ((a + i) `mod` S m)) <$> seq 0 m)
                ++ [byte_at data ((a + (0 + m)) `mod` S m)]))
    by (by rewrite (seq_S m 0), fmap_app).
  rewrite cyc_snoc.
  rewrite <- cons_seq, <- fmap_S_seq, fmap_cons, <- list_fmap_compose.
  f_equal.
  - unfold pred_rot. rewrite En, Nat.add_0_r, Nat.Div0.mod_mod.
    by replace (a + (S m - 1)) with (a + (0 + m)) by lia.
  - apply list_fmap_ext. intros _ i _. unfold compose. f_equal.
    unfold pred_rot. rewrite En, Nat.Div0.add_mod_idemp_l.
    replace (a + (S m - 1) + S i) with (a + i + 1 * S m) by lia.
    by rewrite Nat.Div0.mod_add.
Qed.

Lemma rotation_head (a : nat) :
  a < n → rotation data a !! 0 = Some (byte_at data a).
Proof.
  intros Ha. unfold rotation. rewrite list_lookup_fmap, lookup_seq_lt by done.
  simpl. by rewrite Nat.add_0_r, Nat.mod_small.
Qed.

Lemma cmp_pred (a b : nat) :
  a < n → b < n →
  lex_cmp (rotation data (pred_rot b)) (rotation data (pred_rot a))
  = if (emitted b - emitted a =? 0)%Z
    then lex_cmp (removelast (rotation data b)) (removelast (rotation data a))
    else (emitted b - emitted a)%Z.
Proof.
  intros Ha Hb. rewrite !emitted_pred by done.
  pose proof (rotation_head _ (pred_rot_lt a)) as Hha.
  pose proof (rotation_head _ (pred_rot_lt b)) as Hhb.
  rewrite !rotation_pred in *. unfold cyc in *.
  destruct (last (rotation data a)), (last (rotation data b)); try done.
  simpl in Hha, Hhb. by simplify_eq.
Qed.

Lemma removelast_le (a b : nat) :
  rot_le data a b →
  (lex_cmp (removelast (rotation data a)) (removelast (rotation data b)) ≤ 0)%Z.
Proof. apply lex_cmp_removelast. by rewrite !length_rotation. Qed.

(** *** Where a string sits in the sorted list *)

Lemma sorted_position (s : list Z) (q : nat) :
  length s = n →
  count (λ b, lex_cmp (rotation data b) s <? 0)%Z σ ≤ q →
  q < count (λ b, lex_cmp (rotation data b) s <=? 0)%Z σ →
  ∃ a, σ !! q = Some a ∧ rotation data a = s.
Proof.
  intros Hs Hlow Hhigh.
  destruct (lookup_lt_is_Some_2 σ q) as [a Ha].
  { eapply Nat.lt_le_trans; [apply Hhigh|apply count_le_length]. }
  exists a. split; [done|].
  destruct (Z.lt_trichotomy (lex_cmp (rotation data a) s) 0) as [Hv|[Hv|Hv]].
  - exfalso. rewrite <- (take_drop (S q) σ), count_app in Hlow.
    rewrite count_all in Hlow.
    { rewrite length_take, length_sorted_rotations in Hlow.
      apply lookup_lt_Some in Ha. rewrite length_sorted_rotations in Ha. lia. }
    intros b (j & Hj & Hjq)%elem_of_take. apply Z.ltb_lt.
    assert (rot_le data b a) as Hba by (eapply (sorted_rotations_le data j q); [lia|done..]).
    destruct (lex_cmp_trans (rotation data b) (rotation data a) s) as [_ Hlt];
      [by rewrite ?length_rotation..|done|lia|].
    apply Hlt. by right.
  - apply lex_cmp_eq; [by rewrite length_rotation|done].
  - exfalso. rewrite <- (take_drop q σ), count_app in Hhigh.
    rewrite (count_none _ (drop q σ)) in Hhigh.
    { pose proof (count_le_length (λ b, lex_cmp (rotation data b) s <=? 0)%Z (take q σ)).
      rewrite length_take in *. lia. }
    intros b (j & Hj & Hjq)%elem_of_drop_lookup. apply Z.leb_gt.
    assert (rot_le data a b) as Hab by (eapply (sorted_rotations_le data q j); [lia|done..]).
    rewrite (lex_cmp_opp s (rotation data a)) in Hv.
    destruct (lex_cmp_trans s (rotation data a) (rotation data b)) as [_ Hlt];
      [by rewrite ?length_rotation..|lia|done|].
    rewrite (lex_cmp_opp s (rotation data b)). apply Z.opp_pos_neg, Hlt. left. lia.
Qed.

(** *** One step of the walk moves one rotation back *)

Local Abbreviation T := (emitted <$> σ).

Lemma sorted_rotations_lt (p a : nat) : σ !! p = Some a → a < n.
Proof. intros Hp. by eapply sorted_rotations_elem, list_elem_of_lookup_2. Qed.

Lemma pred_rot_Permutation : pred_rot <$> σ ≡ₚ σ.
Proof.
  rewrite sorted_rotations_Permutation. unfold pred_rot.
  destruct n as [|m]; [lia|].
  replace ((λ a, (a + (S m - 1)) `mod` S m) <$> seq 0 (S m)) with (m :: seq 0 m).
  { rewrite (seq_S m 0). by rewrite (Permutation_app_comm (seq 0 m) [0 + m]). }
  rewrite <- cons_seq, fmap_cons, <- fmap_S_seq, <- list_fmap_compose. f_equal.
  - replace (0 + (S m - 1)) with m by lia. symmetry. apply Nat.mod_small. lia.
  - rewrite <- (list_fmap_id (seq 0 m)) at 1. apply list_fmap_ext.
    intros j i [-> Hj]%lookup_seq. unfold compose.
    replace (S (0 + j) + (S m - 1)) with (j + 1 * S m) by lia.
    change (id (0 + j)) with j.
    rewrite Nat.Div0.mod_add. symmetry. apply Nat.mod_small. lia.
Qed.

Lemma count_pred (f : nat → bool) : count f σ = count (f ∘ pred_rot) σ.
Proof. by rewrite <- count_map, (count_Permutation _ _ _ pred_rot_Permutation). Qed.

Lemma LF_unfold (p a : nat) :
  σ !! p = Some a →
  LF T p = count (λ b, emitted b <? emitted a)%Z σ
           + count (λ b, emitted b =? emitted a)%Z (take p σ).
Proof.
  intros Hp. unfold LF. rewrite list_lookup_fmap, Hp. simpl.
  unfold occ_lt, occ_eq. by rewrite <- fmap_take, !count_map.
Qed.

Lemma LF_rotation (p a : nat) :
  σ !! p = Some a →
  ∃ a', σ !! LF T p = Some a' ∧ rotation data a' = rotation data (pred_rot a).
Proof.
  intros Hp. pose proof (sorted_rotations_lt p a Hp) as Ha.
  apply sorted_position; [apply length_rotation|..]; rewrite count_pred, (LF_unfold p a Hp).
  - rewrite <- (take_drop p σ) at 1 2. rewrite !count_app.
    apply Nat.le_trans with
      ((count (λ b, emitted b <? emitted a)%Z (take p σ)
        + count (λ b, emitted b =? emitted a)%Z (take p σ))
       + count (λ b, emitted b <? emitted a)%Z (drop p σ)); [|lia].
    apply Nat.add_le_mono.
    + apply count_le_sum. intros b (j & Hj & _)%elem_of_take.
      unfold compose. rewrite cmp_pred by (done || by eapply sorted_rotations_lt).
      rewrite Z.ltb_lt, Z.eqb_eq. destruct (Z.eqb_spec (emitted b - emitted a) 0); lia.
    + apply count_le. intros b (j & Hj & Hpj)%elem_of_drop_lookup.
      unfold compose. rewrite cmp_pred by (done || by eapply sorted_rotations_lt).
      rewrite !Z.ltb_lt. destruct (Z.eqb_spec (emitted b - emitted a) 0); [|lia].
      pose proof (removelast_le a b (sorted_rotations_le data p j a b Hpj Hp Hj)) as Hle.
      rewrite (lex_cmp_opp (removelast (rotation data a))). lia.
  - rewrite <- (take_drop (S p) σ) at 1 3. rewrite !count_app.
    apply Nat.lt_le_trans with
      ((count (λ b, emitted b <? emitted a)%Z (take (S p) σ)
        + count (λ b, emitted b =? emitted a)%Z (take (S p) σ))
       + count (λ b, emitted b <? emitted a)%Z (drop (S p) σ)).
    { rewrite (count_take_S (λ b, emitted b =? emitted a)%Z _ _ _ Hp), Z.eqb_refl. lia. }
    apply Nat.add_le_mono.
    + apply count_sum_le.
      * intros b (j & Hj & _)%elem_of_take.
        unfold compose. rewrite cmp_pred by (done || by eapply sorted_rotations_lt).
        rewrite Z.ltb_lt, Z.leb_le. destruct (Z.eqb_spec (emitted b - emitted a) 0); lia.
      * intros b (j & Hj & Hjp)%elem_of_take.
        unfold compose. rewrite cmp_pred by (done || by eapply sorted_rotations_lt).
        rewrite Z.eqb_eq, Z.leb_le. intros ->. rewrite Z.sub_diag. simpl.
        apply removelast_le. eapply (sorted_rotations_le data j p); [lia|done..].
      * intros b _. rewrite Z.ltb_lt, Z.eqb_eq. lia.
    + apply count_le. intros b (j & Hj & _)%elem_of_drop_lookup.
      unfold compose. rewrite cmp_pred by (done || by eapply sorted_rotations_lt).
      rewrite Z.ltb_lt, Z.leb_le. destruct (Z.eqb_spec (emitted b - emitted a) 0); lia.
Qed.

(** *** The walk spells the input backwards *)

Lemma walk_rotation (idx0 k : nat) :
  σ !! idx0 = Some 0 →
  ∃ a, σ !! Nat.iter k (LF T) idx0 = Some a
       ∧ rotation data a = rotation data (Nat.iter k pred_rot 0).
Proof.
  intros H0. induction k as [|k (a & Ha & Hrot)]; [by exists 0|].
  destruct (LF_rotation _ a Ha) as (a' & Ha' & Hrot').
  exists a'. split; [done|]. simpl.
  by rewrite Hrot', !rotation_pred, Hrot.
Qed.

Lemma walk_byte (idx0 k : nat) :
  σ !! idx0 = Some 0 →
  byte_at T (Nat.iter k (LF T) idx0) = byte_at data (Nat.iter (S k) pred_rot 0).
Proof.
  intros H0. destruct (walk_rotation idx0 k H0) as (a & Ha & Hrot).
  unfold byte_at at 1.
  rewrite (nth_lookup_Some _ _ _ (emitted a)) by (by rewrite list_lookup_fmap, Ha).
  rewrite emitted_pred by (by eapply sorted_rotations_lt).
  pose proof (rotation_head _ (pred_rot_lt a)) as Hhead.
  rewrite rotation_pred, Hrot, <- rotation_pred in Hhead.
  rewrite rotation_head in Hhead by apply pred_rot_lt.
  simpl. congruence.
Qed.

Lemma iter_pred_rot (k : nat) : k ≤ n → Nat.iter k pred_rot 0 = (n - k) `mod` n.
Proof.
  induction k as [|k IH]; intros Hk; simpl.
  - by rewrite Nat.sub_0_r, Nat.Div0.mod_same.
  - rewrite IH by lia. unfold pred_rot. rewrite Nat.Div0.add_mod_idemp_l.
    replace (n - k + (n - 1)) with (n - S k + 1 * n) by lia.
    by rewrite Nat.Div0.mod_add.
Qed.

Lemma walk_spells_data (idx0 : nat) :
  σ !! idx0 = Some 0 →
  (λ j, byte_at T (Nat.iter j (LF T) idx0)) <$> reverse (seq 0 n) = data.
Proof.
  intros H0. apply list_eq. intros i.
  rewrite list_lookup_fmap.
  destruct (decide (i < n)) as [Hi|Hi].
  - rewrite reverse_lookup, length_seq, lookup_seq_lt by (rewrite ?length_seq; lia).
    simpl. rewrite (walk_byte _ _ H0), iter_pred_rot by lia.
    replace (n - S (n - S i)) with i by lia. rewrite Nat.mod_small by done.
    destruct (lookup_lt_is_Some_2 data i Hi) as [b Hb].
    rewrite Hb. unfold byte_at. by rewrite (nth_lookup_Some _ _ _ _ Hb).
  - rewrite (lookup_ge_None_2 data) by lia.
    rewrite lookup_ge_None_2; [done|]. rewrite length_reverse, length_seq. lia.
Qed.

(** *** The forward transform *)

Lemma emit_loop (l : list nat) :
  ∃ original_index,
    foldl (bwt_emit data) ([], (-1)%Z) (imap pair l) = (emitted <$> l, original_index)
    ∧ (0 ∈ l → ∃ p, l !! p = Some 0 ∧ original_index = Z.of_nat p).
Proof.
  induction l as [|idx l (oi & Hloop & Hoi)] using rev_ind.
  { exists (-1)%Z. split; [done|by intros ?%elem_of_nil]. }
  rewrite imap_app, foldl_app, Hloop. simpl. rewrite Nat.add_0_r.
  eexists. split; [by rewrite fmap_app|].
  intros Hin. destruct (Nat.eqb_spec idx 0) as [->|Hne].
  - exists (length l). split; [|done]. by rewrite lookup_app_r, Nat.sub_diag.
  - apply elem_of_app in Hin as [Hin|Hin%list_elem_of_singleton]; [|congruence].
    destruct (Hoi Hin) as (p & Hp & ->). exists p. split; [|done].
    by apply lookup_app_l_Some.
Qed.

Lemma bwt_forward_spec :
  ∃ idx0, perform_burrows_wheeler_transform data = (T, Z.of_nat idx0)
          ∧ σ !! idx0 = Some 0.
Proof.
  unfold perform_burrows_wheeler_transform.
  destruct data as [|b l] eqn:E; [simpl in data_nonempty; lia|]. rewrite <- E in *.
  destruct (emit_loop σ) as (oi & Hloop & Hoi).
  destruct Hoi as (p & Hp & ->); [by apply sorted_rotations_elem|].
  by exists p.
Qed.

Lemma bwt_round_trip :
  let '(transformed, index) := perform_burrows_wheeler_transform data in
  reverse_burrows_wheeler_transform transformed index = Ok data.
Proof.
  destruct bwt_forward_spec as (idx0 & -> & H0).
  pose proof (lookup_lt_Some _ _ _ H0) as Hlt. rewrite length_sorted_rotations in Hlt.
  assert (length T = n) as Hlen by (by rewrite length_fmap, length_sorted_rotations).
  rewrite reverse_bwt_walk.
  - rewrite Hlen, Nat2Z.id. f_equal. by apply walk_spells_data.
  - intros HT. rewrite HT in Hlen. simpl in Hlen. lia.
  - lia.
Qed.

End inversion.

(** ** The transform of a constant buffer *)

Section constant_buffer.
Variables (k : nat) (c : Z).
Local Abbreviation block := (replicate (S k) c).

Lemma rotation_replicate (a : nat) : rotation block a = block.
Proof.
  unfold rotation. rewrite length_replicate.
  apply list_eq. intros i. rewrite list_lookup_fmap.
  destruct (decide (i < S k)) as [Hi|Hi].
  - rewrite lookup_seq_lt, lookup_replicate_2 by done.
    cbn -[Nat.modulo replicate]. f_equal.
    unfold byte_at. apply nth_lookup_Some, lookup_replicate_2.
    apply Nat.mod_upper_bound. lia.
  - rewrite lookup_seq_ge by lia. symmetry. apply lookup_replicate_None. lia.
Qed.

Lemma compare_rotations_replicate (a b : nat) : compare_rotations block a b = 0%Z.
Proof. by rewrite compare_rotations_lex, !rotation_replicate, lex_cmp_refl. Qed.

Lemma list_sort_ties (l : list nat) : list_sort (compare_rotations block) l = l.
Proof.
  induction l as [|x l IH]; [done|]. unfold list_sort in *. cbn [foldr]. rewrite IH.
  destruct l as [|y l]; [done|]. cbn [sort_insert].
  by rewrite compare_rotations_replicate.
Qed.

Lemma emitted_replicate (a : nat) : a < S k → emitted block a = c.
Proof.
  intros Ha. unfold emitted, byte_at. rewrite length_replicate.
  destruct (0 <? a); apply nth_lookup_Some, lookup_replicate_2; lia.
Qed.

Lemma bwt_replicate : perform_burrows_wheeler_transform block = (block, 0%Z).
Proof.
  destruct (bwt_forward_spec block) as (idx0 & -> & H0);
    [rewrite length_replicate; lia|].
  unfold sorted_rotations in *. rewrite list_sort_ties, length_replicate in *.
  apply lookup_seq in H0 as [H0 _]. f_equal; [|f_equal; lia].
  apply list_eq. intros i. rewrite list_lookup_fmap.
  destruct (decide (i < S k)) as [Hi|Hi].
  - rewrite lookup_seq_lt, lookup_replicate_2 by done.
    cbn -[replicate]. f_equal. by apply emitted_replicate.
  - rewrite lookup_seq_ge by lia. symmetry. apply lookup_replicate_None. lia.
Qed.

End constant_buffer.

(** ** Facts used by the container *)

Lemma rc_record_bytes (r out : list Z) : rc_record r out → is_bytes r → is_bytes out.
Proof.
  intros [header value _|header literals _ _] Hr.
  - apply Forall_replicate. by apply Forall_cons in Hr as [_ [? _]%Forall_cons].
  - by apply Forall_cons in Hr as [_ ?].
Qed.

Lemma rc_stream_bytes (s out : list Z) : rc_stream s out → is_bytes s → is_bytes out.
Proof.
  induction 1 as [|r out s outs Hr Hs IH]; [done|].
  intros [Hrb Hsb]%Forall_app. apply Forall_app. split; [|by apply IH].
  by eapply rc_record_bytes.
Qed.

Lemma rc_truncated_class (s : list Z) (e : exn) : rc_truncated s e → TruncatedData e.
Proof.
  induction 1 as [r e [header _|header literals _ _]|]; [by left|by right|done].
Qed.

Lemma decode_Ok_stream (data out : list Z) :
  is_bytes data → decode_run_length_encoding data = Ok out ↔ rc_stream data out.
Proof.
  intros Hdata. split; [|by apply decode_stream].
  intros Hdec. destruct (rc_stream_or_truncated data Hdata) as [[out' Hs]|[e He]].
  - rewrite (decode_stream _ _ Hdata Hs) in Hdec. by simplify_eq.
  - by rewrite (decode_truncated _ _ Hdata He) in Hdec.
Qed.

Lemma decode_Raise_truncated (data : list Z) (e : exn) :
  is_bytes data → decode_run_length_encoding data = Raise e ↔ rc_truncated data e.
Proof.
  intros Hdata. split; [|by apply decode_truncated].
  intros Hdec. destruct (rc_stream_or_truncated data Hdata) as [[out' Hs]|[e' He]].
  - by rewrite (decode_stream _ _ Hdata Hs) in Hdec.
  - rewrite (decode_truncated _ _ Hdata He) in Hdec. by simplify_eq.
Qed.

Lemma byte_at_byte (data : list Z) (i : nat) : is_bytes data → is_byte (byte_at data i).
Proof.
  intros Hdata. unfold byte_at.
  destruct (nth_in_or_default i data 0%Z) as [Hin| ->]; [|by unfold is_byte].
  unfold is_bytes in Hdata. rewrite Forall_forall in Hdata.
  by apply Hdata, list_elem_of_In.
Qed.

Lemma bwt_forward_bytes (data : list Z) :
  is_bytes data →
  is_bytes (perform_burrows_wheeler_transform data).1
  ∧ (0 ≤ (perform_burrows_wheeler_transform data).2 ≤ Z.of_nat (length data))%Z
  ∧ length (perform_burrows_wheeler_transform data).1 = length data.
Proof.
  intros Hdata. destruct data as [|b l] eqn:E; [by repeat constructor|].
  rewrite <- E in *. assert (0 < length data) as Hlen by (subst; simpl; lia).
  destruct (bwt_forward_spec data Hlen) as (idx0 & -> & H0).
  apply lookup_lt_Some in H0 as Hlt. rewrite length_sorted_rotations in Hlt.
  cbn [fst snd]. split_and!; [|lia..|by rewrite length_fmap, length_sorted_rotations].
  apply Forall_fmap, Forall_forall. intros a _. unfold compose, emitted.
  destruct (0 <? a); by apply byte_at_byte.
Qed.

Lemma perform_mtf_total (data : list Z) :
  is_bytes data →
  ∃ ranks, perform_move_to_front_transform data = Ok ranks
           ∧ reverse_move_to_front_transform ranks = Ok data
           ∧ is_bytes ranks ∧ length ranks = length data.
Proof.
  intros Hdata.
  destruct (mtf_loops_inverse data fresh_alphabet [] [])
    as (ranks & alphabet' & Henc & Hdec & Hranks & Hlen);
    [by unfold alphabet_ok|done|].
  exists ranks. unfold perform_move_to_front_transform, reverse_move_to_front_transform.
  rewrite Henc. split_and!; [done| |done..].
  destruct ranks as [|r ranks]; [by destruct data|].
  rewrite no_invalid_indices by done. by rewrite Hdec.
Qed.

Lemma reverse_mtf_total (ranks : list Z) :
  is_bytes ranks →
  ∃ bytes, reverse_move_to_front_transform ranks = Ok bytes ∧ is_bytes bytes.
Proof.
  intros Hranks. unfold reverse_move_to_front_transform.
  destruct ranks as [|r ranks]; [exists []; by repeat constructor|].
  rewrite no_invalid_indices by done.
  destruct (mtf_decode_loop_total (r :: ranks) fresh_alphabet [])
    as (alphabet' & bytes & -> & Hbytes); [by unfold alphabet_ok|done|].
  by exists bytes.
Qed.

Lemma from_to_bytes4 (v : Z) :
  (0 ≤ v < 2 ^ 32)%Z →
  ∃ header, to_bytes4 v = Ok header ∧ length header = 4
            ∧ from_bytes_big header = v ∧ is_bytes header
            ∧ (header = [0; 0; 0; 0]%Z ↔ v = 0%Z).
Proof.
  intros Hv. unfold to_bytes4.
  destruct (Z.ltb_spec v 0); [lia|]. destruct (Z.leb_spec (2 ^ 32) v); [lia|].
  eexists. split; [done|]. cbn [orb length from_bytes_big foldl].
  assert (∀ x, is_byte (x `mod` 256)) as Hmod.
  { intros x. unfold is_byte. apply Z.mod_pos_bound. lia. }
  split_and!; [done| |by repeat (constructor; [apply Hmod|])|].
  - pose proof (Z.div_mod v 256). pose proof (Z.div_mod (v / 2 ^ 8) 256).
    pose proof (Z.div_mod (v / 2 ^ 16) 256).
    assert (v / 2 ^ 16 = v / 2 ^ 8 / 256)%Z as H16 by (by rewrite Z.div_div by lia).
    assert (v / 2 ^ 24 = v / 2 ^ 16 / 256)%Z as H24 by (by rewrite Z.div_div by lia).
    assert (v / 2 ^ 24 < 256)%Z by (apply Z.div_lt_upper_bound; lia).
    assert (0 ≤ v / 2 ^ 24)%Z by (apply Z.div_pos; lia).
    rewrite (Z.mod_small (v / 2 ^ 24)) by lia.
    change (2 ^ 8)%Z with 256%Z in *. lia.
  - split.
    + intros [= E24 E16 E8 E0].
      pose proof (Z.div_mod v 256). pose proof (Z.div_mod (v / 2 ^ 8) 256).
      pose proof (Z.div_mod (v / 2 ^ 16) 256).
      assert (v / 2 ^ 16 = v / 2 ^ 8 / 256)%Z by (by rewrite Z.div_div by lia).
      assert (v / 2 ^ 24 = v / 2 ^ 16 / 256)%Z by (by rewrite Z.div_div by lia).
      assert (v / 2 ^ 24 < 256)%Z by (apply Z.div_lt_upper_bound; lia).
      assert (0 ≤ v / 2 ^ 24)%Z by (apply Z.div_pos; lia).
      rewrite (Z.mod_small (v / 2 ^ 24)) in E24 by lia.
      change (2 ^ 8)%Z with 256%Z in *. lia.
    + by intros ->.
Qed.

(** ** The container away from the header collision *)

Lemma decompress_store (data : list Z) :
  decompress_file (store_container data) = Ok data.
Proof. done. Qed.

(** A compressed container whose primary index is not zero decodes to the
    input. *)
Lemma decompress_compressed (data rle_data header : list Z) (index : Z) :
  is_bytes data → 0 < length data →
  (perform_burrows_wheeler_transform data).2 = index →
  (∃ mtf_data,
     perform_move_to_front_transform (perform_burrows_wheeler_transform data).1
       = Ok mtf_data
     ∧ perform_run_length_encoding mtf_data = Ok rle_data) →
  to_bytes4 index = Ok header → index ≠ 0%Z →
  decompress_file (header ++ rle_data) = Ok data.
Proof.
  intros Hdata Hlen Hidx (mtf_data & Hmtf & Hrle) Hheader Hnz.
  destruct (bwt_forward_bytes data Hdata) as (HT & Hrange & _).
  destruct (perform_mtf_total _ HT) as (ranks & Hmtf' & Hback & Hranks & _).
  rewrite Hmtf in Hmtf'. injection Hmtf' as ->.
  destruct (encode_stream ranks Hranks) as (enc & Hrle' & Hstream & Henc).
  rewrite Hrle in Hrle'. injection Hrle' as ->.
  destruct (from_to_bytes4 index) as (header' & Hh & Hlen4 & Hfrom & _ & Hzero).
  { rewrite Hidx in Hrange. split; [lia|].
    destruct (Z.ltb_spec index (2 ^ 32)) as [?|Hbig]; [done|].
    unfold to_bytes4 in Hheader. apply Z.leb_le in Hbig.
    rewrite Hbig, orb_true_r in Hheader. done. }
  rewrite Hheader in Hh. injection Hh as <-.
  unfold decompress_file.
  rewrite take_app_length' by done. rewrite drop_app_length' by done.
  rewrite decide_False by (rewrite Hzero; done).
  rewrite (decode_stream _ _ Henc Hstream). cbn [mbind result_bind].
  rewrite Hback. cbn [mbind result_bind]. rewrite Hfrom, <- Hidx.
  pose proof (bwt_round_trip data Hlen) as Hrt.
  by destruct (perform_burrows_wheeler_transform data).
Qed.

Lemma compress_file_Ok (data out : list Z) :
  compress_file data = Ok out ↔ compress_file_try data = Ok out.
Proof.
  unfold compress_file.
  destruct (compress_file_try data); split; intros Heq; congruence.
Qed.

Lemma compress_file_try_cases (data : list Z) :
  is_bytes data →
  (length data < 512 ∧ compress_file_try data = Ok (store_container data))
  ∨ (512 ≤ length data ∧
     ∃ mtf_data rle_data,
       perform_move_to_front_transform (perform_burrows_wheeler_transform data).1
         = Ok mtf_data
       ∧ perform_run_length_encoding mtf_data = Ok rle_data
       ∧ ((length data ≤ length rle_data + 4
           ∧ compress_file_try data = Ok (store_container data))
          ∨ (length rle_data + 4 < length data
             ∧ compress_file_try data =
                 (header ← to_bytes4 (perform_burrows_wheeler_transform data).2;
                  Ok (header ++ rle_data))))).
Proof.
  intros Hdata. unfold compress_file_try.
  destruct (Nat.ltb_spec (length data) 512) as [Hsmall|Hbig]; [by left|right].
  split; [done|].
  destruct (bwt_forward_bytes data Hdata) as (HT & _ & _).
  destruct (perform_mtf_total _ HT) as (ranks & Hmtf & _ & Hranks & _).
  destruct (encode_stream ranks Hranks) as (enc & Hrle & _ & _).
  exists ranks, enc. split_and!; [done..|].
  destruct (perform_burrows_wheeler_transform data) as [bwt_data index].
  cbn [fst snd] in *. rewrite Hmtf. cbn [mbind result_bind].
  rewrite Hrle. cbn [mbind result_bind].
  destruct (Nat.leb_spec (length data) (length enc + 4)); [by left|by right].
Qed.

Lemma compress_file_cases (data : list Z) :
  is_bytes data →
  (length data < 512 ∧ compress_file data = Ok (store_container data))
  ∨ (512 ≤ length data ∧
     ∃ mtf_data rle_data,
       perform_move_to_front_transform (perform_burrows_wheeler_transform data).1
         = Ok mtf_data
       ∧ perform_run_length_encoding mtf_data = Ok rle_data
       ∧ ((length data ≤ length rle_data + 4
           ∧ compress_file data = Ok (store_container data))
          ∨ (length rle_data + 4 < length data
             ∧ compress_file data =
                 match to_bytes4 (perform_burrows_wheeler_transform data).2 with
                 | Ok header => Ok (header ++ rle_data)
                 | _ => Raise (SystemExit 1)
                 end))).
Proof.
  intros Hdata. unfold compress_file.
  destruct (compress_file_try_cases data Hdata)
    as [[Hsmall ->]|(Hbig & mtf_data & rle_data & Hmtf & Hrle & [[Hle ->]|[Hlt ->]])].
  - by left.
  - right. split; [done|]. exists mtf_data, rle_data. split_and!; [done..|by left].
  - right. split; [done|]. exists mtf_data, rle_data. split_and!; [done..|right].
    split; [done|].
    unfold to_bytes4.
    by destruct ((_ <? 0) || (2 ^ 32 <=? _))%Z.
Qed.

(** Sample inputs. *)
Definition banana : list Z := [98; 97; 110; 97; 110; 97]%Z.
Definition block_600 : list Z := replicate 600 65%Z.
Definition cut_stream : list Z := [131; 7; 2; 1]%Z.
Definition whole_stream : list Z := [131; 7; 2; 1; 0]%Z.

Lemma banana_bytes : is_bytes banana.
Proof. repeat (constructor; [unfold is_byte; lia|]). constructor. Defined.

Lemma cut_stream_bytes : is_bytes cut_stream.
Proof. repeat (constructor; [unfold is_byte; lia|]). constructor. Defined.

Lemma whole_stream_bytes : is_bytes whole_stream.
Proof. repeat (constructor; [unfold is_byte; lia|]). constructor. Defined.

Lemma block_600_bytes : is_bytes block_600.
Proof. apply Forall_replicate. unfold is_byte. lia. Defined.

(** 512 bytes that the transforms do not shrink: [0, 0, 1, 1, ..., 255, 255]. *)
Definition doubled_bytes : list Z := (λ i, Z.of_nat (i / 2)) <$> seq 0 512.

Lemma doubled_bytes_bytes : is_bytes doubled_bytes.
Proof. unfold is_bytes. apply (bool_decide_unpack _). by vm_compute. Defined.

Lemma block_600_length_eq : length block_600 = 600.
Proof. apply length_replicate. Qed.

Lemma block_600_length : 512 ≤ length block_600.
Proof. rewrite block_600_length_eq. lia. Qed.

Lemma doubled_bytes_length : 512 ≤ length doubled_bytes.
Proof. unfold doubled_bytes. rewrite length_fmap, length_seq. lia. Qed.

Lemma doubled_bytes_grows : length doubled_bytes ≤ 517 + 4.
Proof. unfold doubled_bytes. rewrite length_fmap, length_seq. lia. Qed.

(** On [doubled_bytes] the three transforms give 517 bytes. *)
Lemma doubled_bytes_pipeline :
  length <$> (RRT_forward (BST_forward doubled_bytes).1 ≫= RC_encode) = Ok 517.
Proof. by vm_compute. Qed.

(** A container cut inside a repeat record, and one whose header is far
    beyond its two values. *)
Definition cut_file : list Z := [0; 0; 0; 1; 131]%Z.
Definition far_index_file : list Z := [255; 255; 255; 255; 2; 65; 66]%Z.

Lemma cut_file_bytes : is_bytes cut_file.
Proof. repeat (constructor; [unfold is_byte; lia|]). constructor. Defined.

Lemma far_index_file_bytes : is_bytes far_index_file.
Proof. repeat (constructor; [unfold is_byte; lia|]). constructor. Defined.

Lemma block_600_pipeline :
  perform_burrows_wheeler_transform block_600 = (block_600, 0%Z)
  ∧ perform_move_to_front_transform block_600 = Ok (65%Z :: replicate 599 0%Z)
  ∧ perform_run_length_encoding (65%Z :: replicate 599 0%Z)
    = Ok [1; 65; 255; 0; 255; 0; 255; 0; 255; 0; 219; 0]%Z
  ∧ compress_file block_600
    = Ok [0; 0; 0; 0; 1; 65; 255; 0; 255; 0; 255; 0; 255; 0; 219; 0]%Z.
Proof.
  assert (perform_burrows_wheeler_transform block_600 = (block_600, 0%Z)) as Hbwt
    by apply (bwt_replicate 599 65%Z).
  assert (perform_move_to_front_transform block_600 = Ok (65%Z :: replicate 599 0%Z))
    as Hmtf by (by vm_compute).
  assert (perform_run_length_encoding (65%Z :: replicate 599 0%Z)
          = Ok [1; 65; 255; 0; 255; 0; 255; 0; 255; 0; 219; 0]%Z) as Hrle
    by (by vm_compute).
  split_and!; [done..|].
  unfold compress_file, compress_file_try.
  rewrite Hbwt, Hmtf. cbn [mbind result_bind].
  rewrite Hrle. by vm_compute.
Qed.

(** The stages on [block_600], in the specification's names. *)
Lemma block_600_spec_pipeline :
  RRT_forward (BST_forward block_600).1 = Ok (65%Z :: replicate 599 0%Z)
  ∧ RC_encode (65%Z :: replicate 599 0%Z)
    = Ok [1; 65; 255; 0; 255; 0; 255; 0; 255; 0; 219; 0]%Z
  ∧ to_bytes4 (BST_forward block_600).2 = Ok [0; 0; 0; 0]%Z
  ∧ length [1; 65; 255; 0; 255; 0; 255; 0; 255; 0; 219; 0]%Z + 4 < length block_600.
Proof.
  destruct block_600_pipeline as (Hbwt & Hmtf & Hrle & _).
  unfold RRT_forward, BST_forward, RC_encode. rewrite Hbwt. cbn [fst snd].
  split; [exact Hmtf|]. split; [exact Hrle|]. split; [reflexivity|].
  unfold block_600. rewrite length_replicate. cbn [length]. lia.
Qed.

(** ** Properties of the specification *)

(** C1, at an input on which it fails.  On 600 bytes of [0x41] the encoder
    chooses the compressed container, whose header is the primary index 0
    written on four bytes; the decoder reads four zero bytes as the
    store-mode flag and returns the 12-byte run-coded payload instead of
    the 600 input bytes. *)
Theorem encode_decode_collision :
  ∃ out, encode block_600 = Ok out
         ∧ take 4 out = [0; 0; 0; 0]%Z
         ∧ decode out = Ok [1; 65; 255; 0; 255; 0; 255; 0; 255; 0; 219; 0]%Z
         ∧ decode out ≠ Ok block_600.
Proof.
  destruct block_600_pipeline as (_ & _ & _ & Henc).
  eexists. split; [exact Henc|]. split_and!; [reflexivity..|].
  change (decompress_file [0; 0; 0; 0; 1; 65; 255; 0; 255; 0; 255; 0; 255; 0; 219; 0]%Z)
    with (Ok [1; 65; 255; 0; 255; 0; 255; 0; 255; 0; 219; 0]%Z).
  intros Heq. by injection Heq.
Qed.

(** Away from that collision the container round-trips: whenever [encode]
    returns the store container, or a container whose header is not four
    zero bytes, [decode] gives back the input. *)
Theorem encode_decode_round_trip (X out : list Z) :
  is_bytes X → encode X = Ok out →
  out = store_container X ∨ take 4 out ≠ [0; 0; 0; 0]%Z →
  decode out = Ok X.
Proof.
  intros HX Henc Hmode. unfold encode, decode in *.
  destruct (compress_file_cases X HX)
    as [[_ Hstore]|(Hbig & mtf_data & rle_data & Hmtf & Hrle & [[_ Hstore]|[_ Hcomp]])].
  - rewrite Hstore in Henc. injection Henc as <-. apply decompress_store.
  - rewrite Hstore in Henc. injection Henc as <-. apply decompress_store.
  - destruct Hmode as [->|Hhead]; [apply decompress_store|].
    rewrite Hcomp in Henc.
    destruct (to_bytes4 (perform_burrows_wheeler_transform X).2) as [header| |] eqn:Hh;
      try done.
    cbn [mbind result_bind] in Henc. injection Henc as <-.
    destruct (bwt_forward_bytes X HX) as (_ & Hrange & _).
    destruct (from_to_bytes4 (perform_burrows_wheeler_transform X).2)
      as (header' & Hh' & Hlen4 & _ & _ & Hzero).
    { split; [lia|]. destruct (Z.ltb_spec (perform_burrows_wheeler_transform X).2 (2 ^ 32))
        as [?|Hge]; [done|].
      unfold to_bytes4 in Hh. apply Z.leb_le in Hge. by rewrite Hge, orb_true_r in Hh. }
    rewrite Hh in Hh'. injection Hh' as <-.
    rewrite take_app_length' in Hhead by done.
    eapply decompress_compressed; [done|lia|done|by eauto|done|].
    intros Hz. by apply Hhead, Hzero.
Qed.

(** C2. For every buffer [X], the empty and the one-byte buffers included,
    the block-sort inverse applied to the transformed buffer and the primary
    index that the forward transform returns gives back [X]. *)
Theorem BST_round_trip (X : list Z) :
  BST_inverse (BST_forward X).1 (BST_forward X).2 = Ok X.
Proof.
  unfold BST_inverse, BST_forward. destruct (decide (X = [])) as [->|Hne]; [done|].
  pose proof (bwt_round_trip X) as Hrt.
  destruct (perform_burrows_wheeler_transform X) as [transformed index].
  apply Hrt. destruct X; [done|simpl; lia].
Qed.

(** C3. For every byte buffer [X], the move-to-front inverse applied to the
    rank stream of the forward transform gives back [X]; both start from the
    alphabet [0..255]. *)
Theorem RRT_round_trip (X : list Z) :
  is_bytes X → ∃ R, RRT_forward X = Ok R ∧ RRT_inverse R = Ok X.
Proof.
  intros HX. destruct (perform_mtf_total X HX) as (R & Hfwd & Hinv & _).
  by exists R.
Qed.

(** C4. For every stream [S] of values in [0, 255], decoding the run-coded
    encoding of [S] gives back [S]. *)
Theorem RC_round_trip (S : list Z) :
  is_bytes S → ∃ E, RC_encode S = Ok E ∧ RC_decode E = Ok S.
Proof.
  intros HS. destruct (encode_stream S HS) as (E & Henc & Hstream & HE).
  exists E. split; [done|]. by apply decode_stream.
Qed.

(** C5, as the code has it.  The block-sort inverse raises exactly when the
    buffer is not empty and the primary index is outside [0, n), and the
    exception is then the index error; on an empty buffer it returns the
    empty buffer whatever the index; in every other case it returns a
    buffer of [n] bytes. *)
Theorem BST_inverse_failure (T : list Z) (idx0 : Z) :
  ((∃ e, BST_inverse T idx0 = Raise e)
   ↔ 0 < length T ∧ ¬ (0 ≤ idx0 < Z.of_nat (length T))%Z)
  ∧ (∀ e, BST_inverse T idx0 = Raise e →
          e = ValueError OriginalIndexOutOfRange ∧ InvalidIndex e)
  ∧ ((∃ out, BST_inverse T idx0 = Ok out ∧ length out = length T)
     ↔ T = [] ∨ (0 ≤ idx0 < Z.of_nat (length T))%Z)
  ∧ BST_inverse [] idx0 = Ok [].
Proof.
  unfold BST_inverse.
  assert (T = [] ∧ reverse_burrows_wheeler_transform T idx0 = Ok []
          ∨ (0 < length T ∧ ¬ (0 ≤ idx0 < Z.of_nat (length T))%Z
             ∧ reverse_burrows_wheeler_transform T idx0
               = Raise (ValueError OriginalIndexOutOfRange))
          ∨ (0 < length T ∧ (0 ≤ idx0 < Z.of_nat (length T))%Z
             ∧ ∃ out, reverse_burrows_wheeler_transform T idx0 = Ok out
                      ∧ length out = length T)) as Hcases.
  { destruct (decide (T = [])) as [->|Hne]; [by left|right].
    assert (0 < length T) by (destruct T; [done|simpl; lia]).
    destruct (decide (0 ≤ idx0 < Z.of_nat (length T))%Z) as [Hin|Hout].
    - right. split; [done|split; [done|]]. rewrite reverse_bwt_walk by done.
      eexists. split; [done|]. by rewrite length_fmap, length_reverse, length_seq.
    - left. split; [done|split; [done|]]. unfold reverse_burrows_wheeler_transform.
      destruct T; [done|].
      destruct (Z.ltb_spec idx0 0); [done|].
      destruct (Z.leb_spec (Z.of_nat (length (z :: T))) idx0); [done|lia]. }
  split_and!; [| | |done].
  - split.
    + intros [e He]. destruct Hcases as [[_ H]|[(? & ? & H)|(_ & _ & out & H & _)]];
        [congruence|done|congruence].
    + intros [Hlen Hout]. destruct Hcases as [[-> _]|[(_ & _ & H)|(_ & ? & _)]];
        [simpl in Hlen; lia|by eexists|done].
  - intros e He. destruct Hcases as [[_ H]|[(_ & _ & H)|(_ & _ & out & H & _)]];
      [congruence| |congruence].
    rewrite H in He. injection He as <-. split; [done|by left].
  - split.
    + intros (out & Hout & _).
      destruct Hcases as [[-> _]|[(_ & _ & H)|(_ & ? & _)]];
        [by left|congruence|by right].
    + intros Hok. destruct Hcases as [[-> H]|[(Hlen & Hout & _)|(_ & _ & H)]];
        [by exists []| |done].
      destruct Hok as [->|?]; [simpl in Hlen; lia|done].
Qed.

(** C5 as stated fails: with an empty buffer and the index 5 nothing is
    raised. *)
Lemma BST_inverse_empty_buffer_index_5 :
  ¬ (∃ e, BST_inverse [] 5 = Raise e ∧ InvalidIndex e).
Proof. by intros (e & He & _). Qed.

(** C6. On a byte stream, the run decoder raises exactly when the stream ends
    inside a record (a repeat header that is the last byte, or a raw header
    that announces more literals than remain), and what it raises is then
    the truncation error of that record; on every other stream it returns
    the values the records stand for, in order. *)
Theorem RC_decode_truncation (S : list Z) :
  is_bytes S →
  ((∃ e, RC_decode S = Raise e ∧ TruncatedData e) ↔ ∃ e, rc_truncated S e)
  ∧ (∀ e, RC_decode S = Raise e ↔ rc_truncated S e)
  ∧ (∀ out, RC_decode S = Ok out ↔ rc_stream S out)
  ∧ (¬ (∃ e, rc_truncated S e) → ∃ out, rc_stream S out ∧ RC_decode S = Ok out).
Proof.
  intros HS. unfold RC_decode. split_and!.
  - split.
    + intros (e & He & _). exists e. by apply decode_Raise_truncated.
    + intros [e He]. exists e. split; [by apply decode_Raise_truncated|].
      by eapply rc_truncated_class.
  - intros e. by apply decode_Raise_truncated.
  - intros out. by apply decode_Ok_stream.
  - intros Hwhole. destruct (rc_stream_or_truncated S HS) as [[out Hs]|Ht]; [|done].
    exists out. split; [done|]. by apply decode_stream.
Qed.


(** C8, as the code has it.  On 600 bytes of [0x41] the block-sort output is
    again 600 copies of [0x41], with primary index 0; the recency ranks are
    65 followed by 599 zeros; the run codec writes the raw record [1, 65],
    four repeat records [0x80 | 127, 0] and the repeat record [0x80 | 91, 0];
    and the container is the compressed one, four header bytes followed by
    these twelve. *)
Theorem block_600_stages :
  BST_forward block_600 = (block_600, 0%Z)
  ∧ RRT_forward (BST_forward block_600).1 = Ok (65%Z :: replicate 599 0%Z)
  ∧ RC_encode (65%Z :: replicate 599 0%Z)
    = Ok ([1; 65] ++ [Z.lor 128 127; 0; Z.lor 128 127; 0; Z.lor 128 127; 0;
                      Z.lor 128 127; 0] ++ [Z.lor 128 91; 0])%Z
  ∧ encode block_600
    = Ok ([0; 0; 0; 0] ++ [1; 65; 255; 0; 255; 0; 255; 0; 255; 0; 219; 0])%Z
  ∧ encode block_600 ≠ Ok (store_container block_600).
Proof.
  destruct block_600_pipeline as (Hbwt & Hmtf & Hrle & Henc).
  unfold BST_forward, RRT_forward, RC_encode, encode.
  rewrite Hbwt, Henc. cbn [fst]. split_and!.
  - reflexivity.
  - exact Hmtf.
  - exact Hrle.
  - reflexivity.
  - intros Heq. by injection Heq.
Qed.

(** C8 as stated fails: the recency ranks of the 600 bytes are not 600
    zeros, since the first byte [0x41] stands at position 65 of the fresh
    alphabet. *)
Lemma block_600_ranks_not_zero :
  RRT_forward (BST_forward block_600).1 ≠ Ok (replicate 600 0%Z).
Proof.
  destruct block_600_pipeline as (Hbwt & Hmtf & _).
  unfold BST_forward, RRT_forward. rewrite Hbwt. cbn [fst]. rewrite Hmtf.
  change (replicate 600 0%Z) with (0%Z :: replicate 599 0%Z). by intros [= ? _].
Qed.

(** C9. The sorted list of rotation offsets is a rearrangement of
    [0, ..., n-1] in which an earlier offset has a smaller rotation than a
    later one, or an equal rotation and a smaller offset; the comparator
    returns zero only on equal rotations; no other arrangement has this
    property; and the transformed buffer and the primary index are read off
    this list. *)
Theorem BST_forward_tie_break (X : list Z) :
  let σ := sorted_rotations X in
  σ ≡ₚ seq 0 (length X)
  ∧ (∀ p q a b, p < q → σ !! p = Some a → σ !! q = Some b →
       (compare_rotations X a b < 0)%Z
       ∨ (compare_rotations X a b = 0%Z ∧ a < b))
  ∧ (∀ a b, compare_rotations X a b = 0%Z ↔ rotation X a = rotation X b)
  ∧ (∀ l, l ≡ₚ seq 0 (length X) → StronglySorted (rot_before X) l → l = σ)
  ∧ (X ≠ [] → ∃ idx0, σ !! idx0 = Some 0
                      ∧ BST_forward X = (emitted X <$> σ, Z.of_nat idx0)).
Proof.
  intros σ. split_and!.
  - apply sorted_rotations_Permutation.
  - intros p q a b Hpq Hp Hq. rewrite compare_rotations_lex.
    apply (strongly_sorted_lookup _ _ p q a b (sorted_rotations_sorted X)); done.
  - intros a b. rewrite compare_rotations_lex. split.
    + apply lex_cmp_eq. by rewrite !length_rotation.
    + intros ->. apply lex_cmp_refl.
  - intros l Hperm Hsorted.
    apply (StronglySorted_unique (rot_before X)); [done| |].
    + apply sorted_rotations_sorted.
    + unfold σ. by rewrite Hperm, sorted_rotations_Permutation.
  - intros Hne. destruct (bwt_forward_spec X) as (idx0 & Hfwd & H0).
    { destruct X; [done|simpl; lia]. }
    by exists idx0.
Qed.

(** C10. On a byte stream that the run decoder accepts, every decoded value
    is a byte value, and the move-to-front inverse applied to the decoded
    list returns a buffer: neither of its range checks raises. *)
Theorem RC_decode_ranks_valid (S l : list Z) :
  is_bytes S → RC_decode S = Ok l →
  is_bytes l ∧ ∃ out, RRT_inverse l = Ok out ∧ is_bytes out.
Proof.
  intros HS Hdec. apply decode_Ok_stream in Hdec; [|done].
  pose proof (rc_stream_bytes _ _ Hdec HS) as Hl.
  split; [done|]. by apply reverse_mtf_total.
Qed.

(** ** Instances *)

Lemma encode_decode_round_trip_witness :
  is_bytes banana ∧ encode banana = Ok (store_container banana)
  ∧ decode (store_container banana) = Ok banana.
Proof.
  split_and!; [exact banana_bytes|reflexivity|].
  apply (encode_decode_round_trip banana (store_container banana) banana_bytes);
    [reflexivity|by left].
Defined.

Lemma RRT_round_trip_witness :
  is_bytes banana ∧ ∃ R, RRT_forward banana = Ok R ∧ RRT_inverse R = Ok banana.
Proof. split; [exact banana_bytes|exact (RRT_round_trip banana banana_bytes)]. Defined.

Lemma RC_round_trip_witness :
  is_bytes banana ∧ ∃ E, RC_encode banana = Ok E ∧ RC_decode E = Ok banana.
Proof. split; [exact banana_bytes|exact (RC_round_trip banana banana_bytes)]. Defined.

Lemma RC_decode_truncation_witness :
  is_bytes cut_stream
  ∧ ((∃ e, RC_decode cut_stream = Raise e ∧ TruncatedData e)
     ↔ ∃ e, rc_truncated cut_stream e).
Proof.
  split; [exact cut_stream_bytes|].
  exact (proj1 (RC_decode_truncation cut_stream cut_stream_bytes)).
Defined.


Lemma RC_decode_ranks_valid_witness :
  is_bytes whole_stream ∧ RC_decode whole_stream = Ok [7; 7; 7; 1; 0]%Z
  ∧ is_bytes [7; 7; 7; 1; 0]%Z.
Proof.
  split_and!; [exact whole_stream_bytes|reflexivity|].
  exact (proj1 (RC_decode_ranks_valid whole_stream _ whole_stream_bytes eq_refl)).
Defined.

(** * Further properties of the code *)

(** ** What decoding a container can do *)

Lemma reverse_bwt_cases (T : list Z) (idx0 : Z) :
  (T = [] ∧ reverse_burrows_wheeler_transform T idx0 = Ok [])
  ∨ (T ≠ [] ∧ ¬ (0 ≤ idx0 < Z.of_nat (length T))%Z
     ∧ reverse_burrows_wheeler_transform T idx0
       = Raise (ValueError OriginalIndexOutOfRange))
  ∨ (T ≠ [] ∧ (0 ≤ idx0 < Z.of_nat (length T))%Z
     ∧ ∃ out, reverse_burrows_wheeler_transform T idx0 = Ok out
              ∧ length out = length T).
Proof.
  destruct (decide (T = [])) as [->|Hne]; [by left|right].
  destruct (decide (0 ≤ idx0 < Z.of_nat (length T))%Z) as [Hin|Hout].
  - right. split; [done|split; [done|]]. rewrite reverse_bwt_walk by done.
    eexists. split; [reflexivity|]. by rewrite length_fmap, length_reverse, length_seq.
  - left. split; [done|split; [done|]]. unfold reverse_burrows_wheeler_transform.
    destruct T as [|b T]; [done|].
    destruct (Z.ltb_spec idx0 0); [reflexivity|].
    destruct (Z.leb_spec (Z.of_nat (length (b :: T))) idx0); [reflexivity|lia].
Qed.

Lemma mtf_decode_step_length (alphabet out alphabet' out' : list Z) (idx : Z) :
  mtf_decode_step (alphabet, out) idx = Ok (alphabet', out') →
  length out' = length out + 1.
Proof.
  unfold mtf_decode_step.
  destruct (Z.of_nat (length alphabet) <=? idx)%Z; [done|].
  destruct (list_get alphabet (Z.to_nat idx)) as [char| |]; [|done..].
  cbn [mbind result_bind]. unfold bytearray_append.
  destruct (decide (is_byte char)); [|done]. cbn [mbind result_bind].
  destruct (idx =? 0)%Z; intros [= <- <-]; rewrite length_app; simpl; lia.
Qed.

Lemma mtf_decode_loop_length (ranks alphabet out alphabet' out' : list Z) :
  foldlM mtf_decode_step (alphabet, out) ranks = Ok (alphabet', out') →
  length out' = length out + length ranks.
Proof.
  revert alphabet out. induction ranks as [|idx ranks IH]; intros alphabet out.
  - intros [= <- <-]. simpl. lia.
  - cbn [foldlM].
    destruct (mtf_decode_step (alphabet, out) idx) as [[a1 o1]| |] eqn:Hstep; [|done..].
    cbn [mbind result_bind]. intros Hrest%IH.
    apply mtf_decode_step_length in Hstep. simpl. lia.
Qed.

Lemma reverse_mtf_length (ranks out : list Z) :
  reverse_move_to_front_transform ranks = Ok out → length out = length ranks.
Proof.
  unfold reverse_move_to_front_transform. destruct ranks as [|r ranks]; [by intros [= <-]|].
  destruct (filter _ _); [|done].
  destruct (foldlM mtf_decode_step (fresh_alphabet, []) (r :: ranks))
    as [[a o]| |] eqn:Hloop; [|done..].
  intros [= <-]. by apply mtf_decode_loop_length in Hloop.
Qed.

Lemma from_bytes_big_nonneg (bs : list Z) : is_bytes bs → (0 ≤ from_bytes_big bs)%Z.
Proof.
  unfold from_bytes_big. intros Hbs.
  assert (∀ acc, (0 ≤ acc)%Z → (0 ≤ foldl (λ acc b, acc * 256 + b) acc bs)%Z) as H;
    [|by apply H].
  induction Hbs as [|b bs Hb _ IH]; intros acc Hacc; simpl; [done|].
  apply IH. unfold is_byte in Hb. lia.
Qed.

Lemma rc_stream_not_truncated (s out : list Z) (e : exn) :
  is_bytes s → rc_stream s out → rc_truncated s e → False.
Proof.
  intros Hs Hout He. pose proof (decode_stream _ _ Hs Hout) as H1.
  by rewrite (decode_truncated _ _ Hs He) in H1.
Qed.

Lemma rc_stream_functional (s out out' : list Z) :
  is_bytes s → rc_stream s out → rc_stream s out' → out = out'.
Proof.
  intros Hs Hout Hout'. pose proof (decode_stream _ _ Hs Hout) as H1.
  rewrite (decode_stream _ _ Hs Hout') in H1. by injection H1.
Qed.

Lemma decompress_file_cases (file : list Z) :
  is_bytes file →
  (take 4 file = [0; 0; 0; 0]%Z ∧ decompress_file file = Ok (drop 4 file))
  ∨ (take 4 file ≠ [0; 0; 0; 0]%Z
     ∧ ((∃ e, rc_truncated (drop 4 file) e ∧ decompress_file file = Raise e)
        ∨ (rc_stream (drop 4 file) [] ∧ decompress_file file = Ok [])
        ∨ (∃ ranks, rc_stream (drop 4 file) ranks ∧ ranks ≠ []
             ∧ (Z.of_nat (length ranks) ≤ from_bytes_big (take 4 file))%Z
             ∧ decompress_file file = Raise (ValueError OriginalIndexOutOfRange))
        ∨ (∃ ranks out, rc_stream (drop 4 file) ranks ∧ ranks ≠ []
             ∧ (from_bytes_big (take 4 file) < Z.of_nat (length ranks))%Z
             ∧ decompress_file file = Ok out ∧ length out = length ranks))).
Proof.
  intros Hfile. unfold decompress_file.
  destruct (decide (take 4 file = [0; 0; 0; 0]%Z)) as [Hz|Hnz]; [by left|right].
  split; [done|].
  assert (is_bytes (drop 4 file)) as Hpayload by (by apply Forall_drop).
  pose proof (from_bytes_big_nonneg (take 4 file) (Forall_take _ _ _ Hfile)) as Hidx.
  destruct (rc_stream_or_truncated _ Hpayload) as [[ranks Hs]|[e He]]; cycle 1.
  { left. exists e. split; [done|]. by rewrite (decode_truncated _ _ Hpayload He). }
  right. rewrite (decode_stream _ _ Hpayload Hs). cbn [mbind result_bind].
  destruct (reverse_mtf_total ranks (rc_stream_bytes _ _ Hs Hpayload))
    as (bwt_data & Hmtf & _).
  pose proof (reverse_mtf_length _ _ Hmtf) as Hlen.
  rewrite Hmtf. cbn [mbind result_bind].
  destruct (reverse_bwt_cases bwt_data (from_bytes_big (take 4 file)))
    as [[-> Hok]|[(Hne & Hout & Hraise)|(Hne & Hin & out & Hok & Hlen')]].
  - left. destruct ranks; [done|simpl in Hlen; lia].
  - right. left. exists ranks. split_and!; [done| |lia|done].
    intros ->. by destruct bwt_data.
  - right. right. exists ranks, out. split_and!; [done| |lia|done|congruence].
    intros ->. by destruct bwt_data.
Qed.

(** X10. Decoding a byte file whose first four bytes are not all zero ends in
    one of three ways.  It raises the truncation error of the run decoder
    exactly when the payload ends inside a record.  It raises the index
    error exactly when the payload is whole, stands for at least one value
    and the header, read as a big-endian number, is not below the number of
    values.  Otherwise it returns a buffer.  It raises nothing else. *)
Theorem decompress_file_outcomes (file : list Z) :
  is_bytes file →
  ((∃ e, decompress_file file = Raise e ∧ TruncatedData e)
   ↔ take 4 file ≠ [0; 0; 0; 0]%Z ∧ ∃ e, rc_truncated (drop 4 file) e)
  ∧ (decompress_file file = Raise (ValueError OriginalIndexOutOfRange)
     ↔ take 4 file ≠ [0; 0; 0; 0]%Z
       ∧ ∃ ranks, rc_stream (drop 4 file) ranks ∧ ranks ≠ []
                  ∧ (Z.of_nat (length ranks) ≤ from_bytes_big (take 4 file))%Z)
  ∧ (∀ e, decompress_file file = Raise e →
          TruncatedData e ∨ e = ValueError OriginalIndexOutOfRange)
  ∧ ((∃ out, decompress_file file = Ok out) ∨ (∃ e, decompress_file file = Raise e)).
Proof.
  intros Hfile.
  assert (is_bytes (drop 4 file)) as Hpayload by (by apply Forall_drop).
  destruct (decompress_file_cases file Hfile)
    as [[Hz Hdec]|[Hnz [(e & He & Hdec)|[[Hs Hdec]|[(ranks & Hs & Hne & Hidx & Hdec)
        |(ranks & out & Hs & Hne & Hidx & Hdec & Hlen)]]]]]; rewrite Hdec.
  - split_and!; [split|split| |left; by eexists].
    + by intros (e & ? & _).
    + by intros [? _].
    + done.
    + by intros [? _].
    + done.
  - pose proof (rc_truncated_class _ _ He) as Hclass.
    split_and!; [split|split| |right; by eexists].
    + intros _. split; [done|by exists e].
    + intros _. by exists e.
    + intros [= ->]. by destruct Hclass.
    + intros (_ & ranks & Hs & _). by destruct (rc_stream_not_truncated _ _ _ Hpayload Hs He).
    + intros e' [= <-]. by left.
  - split_and!; [split|split| |left; by eexists].
    + by intros (e & ? & _).
    + intros (_ & e & He). by destruct (rc_stream_not_truncated _ _ _ Hpayload Hs He).
    + done.
    + intros (_ & ranks & Hs' & Hne & _).
      by rewrite (rc_stream_functional _ _ _ Hpayload Hs' Hs) in Hne.
    + done.
  - split_and!; [split|split| |right; by eexists].
    + intros (e & [= <-] & [?|?]); done.
    + intros (_ & e & He). by destruct (rc_stream_not_truncated _ _ _ Hpayload Hs He).
    + intros _. split; [done|]. by exists ranks.
    + done.
    + intros e [= <-]. by right.
  - split_and!; [split|split| |left; by eexists].
    + by intros (e & ? & _).
    + intros (_ & e & He). by destruct (rc_stream_not_truncated _ _ _ Hpayload Hs He).
    + done.
    + intros (_ & ranks' & Hs' & _ & Hidx').
      rewrite (rc_stream_functional _ _ _ Hpayload Hs' Hs) in Hidx'. lia.
    + done.
Qed.

(** X11. A file of fewer than four bytes is not recognised as a store
    container and carries no payload: it decodes to the empty buffer, with
    no error. *)
Theorem decompress_short_file (file : list Z) :
  length file < 4 → decompress_file file = Ok [].
Proof.
  intros Hlen. unfold decompress_file.
  rewrite take_ge, drop_ge by lia.
  rewrite decide_False; [done|]. intros ->. simpl in Hlen. lia.
Qed.

(** X2. For a byte buffer [X] on which [encode] returns, decoding the result
    gives back [X] exactly when the container is the store container or the
    primary index of [X] is not zero.  In the remaining case, a compressed
    container with primary index zero, decoding returns the run-coded
    payload, which is shorter than [X]. *)
Theorem round_trip_iff (X out : list Z) :
  is_bytes X → compress_file X = Ok out →
  (decompress_file out = Ok X
   ↔ out = store_container X ∨ (perform_burrows_wheeler_transform X).2 ≠ 0%Z)
  ∧ (out ≠ store_container X → (perform_burrows_wheeler_transform X).2 = 0%Z →
     decompress_file out = Ok (drop 4 out) ∧ length out < length X).
Proof.
  intros HX Henc.
  destruct (compress_file_cases X HX)
    as [[_ Hstore]|(Hbig & mtf_data & rle_data & Hmtf & Hrle & [[_ Hstore]|[Hlt Hcomp]])].
  - rewrite Hstore in Henc. injection Henc as <-.
    split; [|done]. split; [by left|]. intros _. apply decompress_store.
  - rewrite Hstore in Henc. injection Henc as <-.
    split; [|done]. split; [by left|]. intros _. apply decompress_store.
  - rewrite Hcomp in Henc.
    destruct (to_bytes4 (perform_burrows_wheeler_transform X).2) as [header| |] eqn:Hh;
      try done.
    cbn [mbind result_bind] in Henc. injection Henc as <-.
    destruct (bwt_forward_bytes X HX) as (_ & Hrange & _).
    destruct (from_to_bytes4 (perform_burrows_wheeler_transform X).2)
      as (header' & Hh' & Hlen4 & _ & _ & Hzero).
    { split; [lia|].
      destruct (Z.ltb_spec (perform_burrows_wheeler_transform X).2 (2 ^ 32)) as [?|Hge];
        [done|].
      unfold to_bytes4 in Hh. apply Z.leb_le in Hge. by rewrite Hge, orb_true_r in Hh. }
    rewrite Hh in Hh'. injection Hh' as <-.
    assert ((perform_burrows_wheeler_transform X).2 = 0%Z →
            decompress_file (header ++ rle_data) = Ok rle_data) as Hcollide.
    { intros Hz%Hzero. subst header. reflexivity. }
    assert (length (header ++ rle_data) < length X) as Hshort
      by (rewrite length_app; lia).
    split.
    + split.
      * intros Hdec.
        destruct (decide ((perform_burrows_wheeler_transform X).2 = 0%Z)) as [Hz|Hnz];
          [|by right].
        rewrite (Hcollide Hz) in Hdec. injection Hdec as ->. lia.
      * intros [Hst|Hnz].
        { apply (f_equal length) in Hst. unfold store_container in Hst.
          rewrite (length_app (replicate 4 0%Z)) in Hst. simpl in Hst. lia. }
        eapply decompress_compressed; [done|lia|done|by eauto|done|done].
    + intros _ Hz. rewrite drop_app_length' by done. by split; [apply Hcollide|].
Qed.

(** ** The forward transform: a rearrangement, and when its index is zero *)

Lemma byte_at_seq (data : list Z) : byte_at data <$> seq 0 (length data) = data.
Proof.
  apply list_eq. intros i. rewrite list_lookup_fmap.
  destruct (data !! i) as [b|] eqn:Hb.
  - rewrite lookup_seq_lt by (by eapply lookup_lt_Some). simpl.
    unfold byte_at. by rewrite (nth_lookup_Some _ _ _ _ Hb).
  - apply lookup_ge_None in Hb. by rewrite lookup_seq_ge.
Qed.

Lemma emitted_Permutation (data : list Z) :
  0 < length data → emitted data <$> sorted_rotations data ≡ₚ data.
Proof.
  intros Hlen.
  rewrite (list_fmap_ext (emitted data) (byte_at data ∘ pred_rot data)); cycle 1.
  { intros p a Hp. apply (emitted_pred data Hlen). by eapply sorted_rotations_lt. }
  rewrite list_fmap_compose, (pred_rot_Permutation data Hlen).
  by rewrite sorted_rotations_Permutation, byte_at_seq.
Qed.

(** X4. The transformed buffer is a rearrangement of the input, so it has
    the same length and holds every byte value as often; for a non-empty
    input the primary index lies in [0, n). *)
Theorem bwt_rearranges (X : list Z) :
  (perform_burrows_wheeler_transform X).1 ≡ₚ X
  ∧ length (perform_burrows_wheeler_transform X).1 = length X
  ∧ (∀ c, occ_eq c (perform_burrows_wheeler_transform X).1 = occ_eq c X)
  ∧ (X ≠ [] → (0 ≤ (perform_burrows_wheeler_transform X).2 < Z.of_nat (length X))%Z).
Proof.
  assert ((perform_burrows_wheeler_transform X).1 ≡ₚ X
          ∧ (X ≠ [] →
             (0 ≤ (perform_burrows_wheeler_transform X).2 < Z.of_nat (length X))%Z))
    as [Hperm Hidx].
  { destruct (decide (X = [])) as [->|Hne]; [done|].
    assert (0 < length X) as Hlen by (destruct X; [done|simpl; lia]).
    destruct (bwt_forward_spec X Hlen) as (idx0 & -> & H0). cbn [fst snd].
    split; [by apply emitted_Permutation|]. intros _.
    apply lookup_lt_Some in H0. rewrite length_sorted_rotations in H0. lia. }
  split_and!; [done|by rewrite Hperm| |done].
  intros c. unfold occ_eq. by apply count_Permutation.
Qed.

(** X3. For a non-empty input the primary index is zero exactly when the
    comparator puts the input itself at or before every one of its
    rotations. *)
Theorem primary_index_zero_iff (X : list Z) :
  X ≠ [] →
  (perform_burrows_wheeler_transform X).2 = 0%Z
  ↔ ∀ a, a < length X → (compare_rotations X 0 a ≤ 0)%Z.
Proof.
  intros Hne. assert (0 < length X) as Hlen by (destruct X; [done|simpl; lia]).
  destruct (bwt_forward_spec X Hlen) as (idx0 & -> & H0). cbn [snd]. split.
  - intros Hz a Ha. assert (idx0 = 0) as -> by lia.
    rewrite compare_rotations_lex.
    assert (a ∈ sorted_rotations X) as [q Hq]%list_elem_of_lookup
      by (by apply sorted_rotations_elem).
    apply (sorted_rotations_le X 0 q 0 a); [lia|done..].
  - intros Hleast. destruct idx0 as [|p]; [done|exfalso].
    destruct (lookup_lt_is_Some_2 (sorted_rotations X) 0) as [b Hb];
      [rewrite length_sorted_rotations; lia|].
    pose proof (strongly_sorted_lookup _ _ 0 (S p) b 0 (sorted_rotations_sorted X)) as Hlt.
    destruct Hlt as [Hlt|[_ ?]]; [lia|done..| |lia].
    specialize (Hleast b (sorted_rotations_lt X 0 b Hb)).
    rewrite compare_rotations_lex, (lex_cmp_opp (rotation X b)) in Hleast. lia.
Qed.

(** ** Move-to-front: the ranks, the other round trip, the failure *)

Lemma alphabet_ok_NoDup (alphabet : list Z) : alphabet_ok alphabet → NoDup alphabet.
Proof. unfold alphabet_ok. intros ->. apply NoDup_seqZ. Qed.

Lemma list_index_NoDup (l : list Z) (i : nat) (x : Z) :
  NoDup l → l !! i = Some x → list_index x l = Ok i.
Proof.
  revert i. induction l as [|y l IH]; intros i Hnd Hi; [done|].
  apply NoDup_cons in Hnd as [Hy Hnd]. destruct i as [|i]; simpl in *.
  - injection Hi as ->. by rewrite Z.eqb_refl.
  - destruct (Z.eqb_spec y x) as [->|_].
    + destruct Hy. by eapply list_elem_of_lookup_2.
    + by rewrite (IH i).
Qed.

Lemma mtf_step_inverse_back (alphabet out out' : list Z) (idx : Z) :
  alphabet_ok alphabet → is_byte idx →
  ∃ byte alphabet',
    mtf_decode_step (alphabet, out) idx = Ok (alphabet', out ++ [byte])
    ∧ mtf_encode_step (alphabet, out') byte = Ok (alphabet', out' ++ [idx])
    ∧ is_byte byte ∧ alphabet_ok alphabet'.
Proof.
  intros Hok Hidx. pose proof (alphabet_ok_length _ Hok) as Hlen.
  destruct (lookup_lt_is_Some_2 alphabet (Z.to_nat idx)) as [char Hchar];
    [unfold is_byte in Hidx; lia|].
  assert (is_byte char) as Hc.
  { eapply alphabet_ok_elem; [done|]. by eapply list_elem_of_lookup_2. }
  exists char, (char :: delete (Z.to_nat idx) alphabet).
  unfold mtf_encode_step, mtf_decode_step.
  rewrite (list_index_NoDup _ _ _ (alphabet_ok_NoDup _ Hok) Hchar).
  destruct (Z.leb_spec (Z.of_nat (length alphabet)) idx); [unfold is_byte in Hidx; lia|].
  rewrite (list_get_lookup _ _ _ Hchar). cbn [mbind result_bind].
  rewrite bytearray_append_Ok by done. cbn [mbind result_bind].
  rewrite Z2Nat.id by (unfold is_byte in Hidx; lia).
  split_and!; [|done..|by eapply alphabet_ok_front].
  destruct (Z.eqb_spec idx 0) as [->|_]; [|done].
  by rewrite front_fixed.
Qed.

Lemma mtf_loops_inverse_back (ranks alphabet out out' : list Z) :
  alphabet_ok alphabet → is_bytes ranks →
  ∃ data alphabet',
    foldlM mtf_decode_step (alphabet, out) ranks = Ok (alphabet', out ++ data)
    ∧ foldlM mtf_encode_step (alphabet, out') data = Ok (alphabet', out' ++ ranks)
    ∧ is_bytes data.
Proof.
  intros Hok Hranks. revert alphabet out out' Hok.
  induction Hranks as [|idx ranks Hidx _ IH]; intros alphabet out out' Hok.
  - exists [], alphabet. rewrite !app_nil_r. repeat split. constructor.
  - destruct (mtf_step_inverse_back alphabet out out' idx Hok Hidx)
      as (byte & alphabet1 & Hdec & Henc & Hb & Hok1).
    destruct (IH alphabet1 (out ++ [byte]) (out' ++ [idx]) Hok1)
      as (data & alphabet2 & Hdec2 & Henc2 & Hdata).
    exists (byte :: data), alphabet2.
    cbn [foldlM]. rewrite Henc, Hdec. cbn [mbind result_bind].
    rewrite Henc2, Hdec2, <- !app_assoc. split_and!; [done..|by constructor].
Qed.

(** X6. The round trip also holds in the other direction: every stream of
    ranks in [0, 255] decodes to a byte buffer whose forward transform is
    that stream. *)
Theorem mtf_forward_of_inverse (R : list Z) :
  is_bytes R →
  ∃ X, reverse_move_to_front_transform R = Ok X
       ∧ perform_move_to_front_transform X = Ok R.
Proof.
  intros HR.
  destruct (mtf_loops_inverse_back R fresh_alphabet [] [])
    as (X & alphabet' & Hdec & Henc & HX); [by unfold alphabet_ok|done|].
  exists X. unfold perform_move_to_front_transform, reverse_move_to_front_transform.
  rewrite Henc. split; [|done].
  destruct R as [|r R].
  - cbn [foldlM] in Hdec. by injection Hdec as _ <-.
  - rewrite no_invalid_indices by done. by rewrite Hdec.
Qed.

Lemma mtf_encode_ranks (data alphabet out : list Z) :
  alphabet_ok alphabet → is_bytes data →
  ∃ ranks alphabet',
    foldlM mtf_encode_step (alphabet, out) data = Ok (alphabet', out ++ ranks)
    ∧ (∀ b, data !! 0 = Some b →
            ∃ idx, ranks !! 0 = Some (Z.of_nat idx) ∧ alphabet !! idx = Some b)
    ∧ (∀ i b b', data !! i = Some b → data !! S i = Some b' →
                 ranks !! S i = Some 0%Z ↔ b' = b).
Proof.
  intros Hok Hdata. revert alphabet out Hok.
  induction Hdata as [|byte data Hb Hdata IH]; intros alphabet out Hok.
  { exists [], alphabet. rewrite app_nil_r. by split_and!. }
  destruct (list_index_Ok byte alphabet) as (idx & Hidx & Hget);
    [by apply alphabet_ok_elem|].
  pose proof (alphabet_ok_front _ _ _ Hok Hget) as Hok1.
  destruct (IH (byte :: delete idx alphabet) (out ++ [Z.of_nat idx]) Hok1)
    as (ranks & alphabet2 & Hloop & Hfirst & Hpairs).
  exists (Z.of_nat idx :: ranks), alphabet2. split_and!.
  - assert (mtf_encode_step (alphabet, out) byte
            = Ok (byte :: delete idx alphabet, out ++ [Z.of_nat idx])) as Hstep
      by (unfold mtf_encode_step; by rewrite Hidx).
    cbn [foldlM]. rewrite Hstep. cbn [mbind result_bind].
    by rewrite Hloop, <- app_assoc.
  - intros b [= <-]. by exists idx.
  - intros [|i] b b'.
    + intros [= <-] Hb'. destruct (Hfirst b' Hb') as (idx' & Hr & Ha). simpl in *.
      rewrite Hr. split.
      * intros [= Hz]. assert (idx' = 0) as -> by lia. simpl in Ha. congruence.
      * intros ->. do 2 f_equal.
        assert (idx' = 0); [|lia].
        by apply (NoDup_lookup _ idx' 0 byte (alphabet_ok_NoDup _ Hok1)).
    + apply Hpairs.
Qed.

(** X5. On a byte buffer the forward transform returns as many ranks as
    there are bytes, each in [0, 255]; the first rank is the first byte's
    own value; and a later rank is zero exactly when its byte repeats the
    byte before it. *)
Theorem mtf_ranks (X : list Z) :
  is_bytes X →
  ∃ R, perform_move_to_front_transform X = Ok R
       ∧ length R = length X ∧ is_bytes R
       ∧ (∀ b, X !! 0 = Some b → R !! 0 = Some b)
       ∧ (∀ i b b', X !! i = Some b → X !! S i = Some b' →
                    R !! S i = Some 0%Z ↔ b' = b).
Proof.
  intros HX.
  destruct (perform_mtf_total X HX) as (R & Hfwd & _ & HR & Hlen).
  destruct (mtf_encode_ranks X fresh_alphabet [])
    as (R' & alphabet' & Hloop & Hfirst & Hpairs); [by unfold alphabet_ok|done|].
  unfold perform_move_to_front_transform in Hfwd. rewrite Hloop in Hfwd.
  injection Hfwd as ->.
  exists R. unfold perform_move_to_front_transform. rewrite Hloop.
  do 3 (split; [done|]). split; [|done].
  intros b Hb. by destruct (Hfirst b Hb) as (idx & -> & [-> _]%lookup_seqZ).
Qed.

Lemma invalid_indices_found (ranks : list Z) :
  ¬ is_bytes ranks → filter (λ idx, (idx < 0)%Z ∨ (256 ≤ idx)%Z) ranks ≠ [].
Proof.
  intros Hbad Hnil. apply Hbad, Forall_forall. intros x Hx.
  destruct (decide (is_byte x)) as [|Hx']; [done|exfalso].
  assert (x ∈ filter (λ idx, (idx < 0)%Z ∨ (256 ≤ idx)%Z) ranks) as Hin.
  { apply list_elem_of_filter. split; [|done]. unfold is_byte in Hx'. lia. }
  rewrite Hnil in Hin. by apply elem_of_nil in Hin.
Qed.

(** X7. The inverse transform raises exactly when some rank lies outside
    [0, 255], and what it raises is then the error of its range filter: the
    check against the alphabet size inside the loop never fires.  On ranks
    in range it returns a byte buffer of the same length. *)
Theorem reverse_mtf_failure (R : list Z) :
  ((∃ e, reverse_move_to_front_transform R = Raise e) ↔ ¬ is_bytes R)
  ∧ (∀ e, reverse_move_to_front_transform R = Raise e → e = ValueError RankOutOfRange)
  ∧ ((∃ X, reverse_move_to_front_transform R = Ok X
           ∧ length X = length R ∧ is_bytes X)
     ↔ is_bytes R).
Proof.
  destruct (decide (is_bytes R)) as [HR|HR].
  - destruct (reverse_mtf_total R HR) as (X & HX & Hbytes).
    pose proof (reverse_mtf_length _ _ HX) as Hlen. rewrite HX.
    split_and!; [split; [by intros [? ?]|done]|done|split; [done|by exists X]].
  - assert (reverse_move_to_front_transform R = Raise (ValueError RankOutOfRange)) as ->.
    { unfold reverse_move_to_front_transform.
      destruct R as [|r R]; [by destruct HR; constructor|].
      pose proof (invalid_indices_found _ HR) as Hf.
      by destruct (filter _ (r :: R)). }
    split_and!; [split; [done|by eexists]|by intros e [= <-]|split; [by intros (? & ? & _)|done]].
Qed.

(** ** The run codec: decoding in pieces, and what the encoder writes *)

Lemma rc_stream_app (s1 o1 s2 o2 : list Z) :
  rc_stream s1 o1 → rc_stream s2 o2 → rc_stream (s1 ++ s2) (o1 ++ o2).
Proof.
  induction 1 as [|r out s outs Hr Hs IH]; intros H2; [done|].
  rewrite <- !app_assoc. constructor; [done|by apply IH].
Qed.

Lemma rc_truncated_app (s1 o1 s2 : list Z) (e : exn) :
  rc_stream s1 o1 → rc_truncated s2 e → rc_truncated (s1 ++ s2) e.
Proof.
  induction 1 as [|r out s outs Hr Hs IH]; intros H2; [done|].
  rewrite <- !app_assoc. eapply trunc_later; [done|by apply IH].
Qed.

(** X9. Decoding can be done in pieces: if a byte stream decodes to [o1],
    then that stream followed by a second byte stream decodes to [o1]
    followed by what the second decodes to, and fails as the second does. *)
Theorem rle_decode_app (s1 s2 o1 : list Z) :
  is_bytes s1 → is_bytes s2 →
  decode_run_length_encoding s1 = Ok o1 →
  decode_run_length_encoding (s1 ++ s2)
  = (o2 ← decode_run_length_encoding s2; Ok (o1 ++ o2)).
Proof.
  intros H1 H2 Hdec. apply decode_Ok_stream in Hdec; [|done].
  assert (is_bytes (s1 ++ s2)) as H12 by (by apply Forall_app).
  destruct (rc_stream_or_truncated s2 H2) as [[o2 Hs]|[e He]].
  - rewrite (decode_stream _ _ H2 Hs). cbn [mbind result_bind].
    apply decode_stream; [done|]. by apply rc_stream_app.
  - rewrite (decode_truncated _ _ H2 He). cbn [mbind result_bind].
    apply decode_truncated; [done|]. by eapply rc_truncated_app.
Qed.

(** Three equal values start at position [j]: the test that ends a raw
    record. *)
Definition triple_at (data : list Z) (j : nat) : Prop :=
  j + 2 < length data ∧ three_equal data j = true.

(** The records the encoder writes. *)
Inductive enc_record : list Z → list Z → Prop :=
  | enc_repeat (count : nat) (value : Z) :
      3 ≤ count ≤ 127 →
      enc_record [Z.lor 128 (Z.of_nat count); value] (replicate count value)
  | enc_raw (literals : list Z) :
      1 ≤ length literals ≤ 127 →
      (∀ j, ¬ triple_at literals j) →
      enc_record (Z.of_nat (length literals) :: literals) literals.

Inductive enc_stream : list Z → list Z → Prop :=
  | enc_done : enc_stream [] []
  | enc_next (r out s outs : list Z) :
      enc_record r out → enc_stream s outs → enc_stream (r ++ s) (out ++ outs).

Lemma enc_record_nonempty (r out : list Z) : enc_record r out → out ≠ [].
Proof.
  intros [count value Hc|literals Hl _].
  - destruct count; [lia|done].
  - destruct literals; [simpl in Hl; lia|done].
Qed.

Lemma enc_stream_nil (s : list Z) : enc_stream s [] → s = [].
Proof.
  intros H. remember [] as o eqn:E. destruct H as [|r out s outs Hr Hs]; [done|].
  apply app_eq_nil in E as [E _].
  by destruct (enc_record_nonempty _ _ Hr).
Qed.

Lemma raw_loop_stop (data : list Z) (i fuel run_length : nat) :
  is_bytes data →
  127 - run_length ≤ fuel → run_length ≤ 127 → i + run_length ≤ length data →
  (∀ j, j < run_length → ¬ triple_at data (i + j)) →
  ∃ rl, raw_loop fuel data i run_length (take run_length (drop i data))
        = Ok (rl, take rl (drop i data))
        ∧ run_length ≤ rl ≤ 127 ∧ i + rl ≤ length data
        ∧ (∀ j, j < rl → ¬ triple_at data (i + j))
        ∧ (rl = 127 ∨ i + rl = length data ∨ triple_at data (i + rl)).
Proof.
  intros Hdata. revert run_length.
  induction fuel as [|fuel IH]; intros run_length Hfuel Hrl Hin Hno.
  - assert (run_length = 127) as -> by lia. exists 127. simpl.
    rewrite andb_false_r. split_and!; [done|lia..|done|by left].
  - cbn [raw_loop].
    destruct (Nat.ltb_spec (i + run_length) (length data)) as [Hlt|Hge]; cycle 1.
    { exists run_length. split_and!; [done|lia..|done|right; left; lia]. }
    destruct (Nat.ltb_spec run_length 127) as [Hlt'|Hge']; cycle 1.
    { exists run_length. split_and!; [done|lia..|done|left; lia]. }
    cbn [andb].
    destruct ((i + run_length + 2 <? length data) && three_equal data (i + run_length))
      eqn:Hbreak.
    { apply andb_prop in Hbreak as [?%Nat.ltb_lt ?].
      exists run_length. split_and!; [done|lia..|done|by right; right]. }
    destruct (lookup_lt_is_Some_2 data (i + run_length) Hlt) as [v Hv].
    rewrite (list_get_lookup _ _ _ Hv). cbn [mbind result_bind].
    rewrite bytearray_append_Ok by (eapply Forall_lookup_1; [apply Hdata|apply Hv]).
    cbn [mbind result_bind].
    rewrite <- take_S_r by (by rewrite lookup_drop).
    rewrite Nat.add_1_r.
    destruct (IH (S run_length)) as (rl & Hrl' & Hle & Hin' & Hno' & Hstop); [lia..| |].
    { intros j Hj. destruct (decide (j = run_length)) as [->|]; [|apply Hno; lia].
      intros [Hj2 Hj3]. apply Nat.ltb_lt in Hj2. by rewrite Hj2, Hj3 in Hbreak. }
    exists rl. split_and!; [done|lia..|done|done].
Qed.

Lemma triple_at_slice (data : list Z) (i rl j : nat) :
  triple_at (take rl (drop i data)) j → triple_at data (i + j) ∧ j < rl.
Proof.
  intros [Hj Ht]. rewrite length_take, length_drop in Hj.
  unfold triple_at, three_equal in *.
  rewrite !lookup_take_lt, !lookup_drop in Ht by lia.
  rewrite <- !Nat.add_assoc. split_and!; [lia|done|lia].
Qed.

Lemma rle_loop_shape (data : list Z) (fuel i : nat) (encoded : list Z) :
  is_bytes data → length data - i ≤ fuel → i ≤ length data →
  ∃ tail, rle_loop fuel data i encoded = Ok (encoded ++ tail)
          ∧ enc_stream tail (drop i data)
          ∧ length tail ≤ (length data - i) + (length data - i + 126) / 127
          ∧ (triple_at data i →
             length tail + 1 ≤ (length data - i) + (length data - i + 126) / 127).
Proof.
  intros Hdata. revert i encoded.
  induction fuel as [|fuel IH]; intros i encoded Hfuel Hi.
  { exists []. assert (i = length data) as -> by lia. cbn [rle_loop].
    rewrite Nat.ltb_irrefl, drop_all, app_nil_r.
    split_and!; [done|constructor|cbn [length]; lia|]. intros [? _]. lia. }
  cbn [rle_loop]. destruct (Nat.ltb_spec i (length data)) as [Hlt|Hge]; cycle 1.
  { exists []. rewrite drop_ge, app_nil_r by done.
    split_and!; [done|constructor|cbn [length]; lia|]. intros [? _]. lia. }
  destruct (lookup_lt_is_Some_2 data i Hlt) as [current Hcur].
  assert (is_byte current) as Hcb by (eapply Forall_lookup_1; [apply Hdata|apply Hcur]).
  rewrite (list_get_lookup _ _ _ Hcur). cbn [mbind result_bind].
  destruct (run_count_loop_spec data i current 127 1) as (c & -> & Hc & Hrun & Hmax);
    [lia..| |].
  { intros k Hk. assert (k = 0) as -> by lia. by rewrite Nat.add_0_r. }
  cbn [mbind result_bind].
  assert (i + c ≤ length data) as Hin.
  { assert (i + (c - 1) < length data); [|lia].
    eapply lookup_lt_Some, Hrun. lia. }
  destruct (Nat.ltb_spec 2 c) as [Hbig|Hsmall].
  - destruct (repeat_header c) as (Hhb & Htop & Hland); [lia|].
    rewrite !bytearray_append_Ok by done. cbn [mbind result_bind].
    rewrite bytearray_append_Ok by done. cbn [mbind result_bind].
    destruct (IH (i + c) ((encoded ++ [Z.lor 128 (Z.of_nat c)]) ++ [current]))
      as (tail & -> & Hs & Hlen & _); [lia..|].
    exists ([Z.lor 128 (Z.of_nat c); current] ++ tail).
    assert (length ([Z.lor 128 (Z.of_nat c); current] ++ tail) + 1
            ≤ length data - i + (length data - i + 126) / 127) as Hbound.
    { rewrite length_app. cbn [length].
      assert ((length data - (i + c) + 126) / 127 ≤ (length data - i + 126) / 127)
        by (apply Nat.Div0.div_le_mono; lia).
      lia. }
    split_and!; [by rewrite <- !app_assoc| |lia|done].
    rewrite <- (take_drop c (drop i data)), drop_drop.
    apply enc_next; [|done].
    rewrite (take_replicate_run _ _ _ _ Hrun). apply enc_repeat. lia.
  - assert (¬ triple_at data i) as Hno.
    { intros [Hi2 (x & Hx0 & Hx1 & Hx2)%three_equal_true].
      assert (x = current) as -> by congruence.
      assert (c = 1 ∨ c = 2) as [->| ->] by lia; (apply Hmax; [lia|done]). }
    destruct (raw_loop_stop data i 127 0 Hdata)
      as (rl & Hraw & Hrl & Hin' & Hclean & Hstop); [lia..| |].
    { intros j Hj. lia. }
    rewrite take_0 in Hraw. rewrite Hraw. cbn [mbind result_bind].
    assert (1 ≤ rl) as Hpos.
    { destruct (decide (rl = 0)) as [->|]; [|lia]. rewrite Nat.add_0_r in Hstop.
      destruct Hstop as [?|[?|?]]; [lia|lia|done]. }
    destruct (raw_header rl) as (Hhb & Htop); [lia|].
    rewrite bytearray_append_Ok by done. cbn [mbind result_bind].
    destruct (IH (i + rl) ((encoded ++ [Z.of_nat rl]) ++ take rl (drop i data)))
      as (tail & -> & Hs & Hlen & Htriple); [lia..|].
    assert (length (take rl (drop i data)) = rl) as Hlit
      by (rewrite length_take, length_drop; lia).
    exists ((Z.of_nat rl :: take rl (drop i data)) ++ tail).
    split_and!; [by rewrite <- !app_assoc| | |done].
    + rewrite <- (take_drop rl (drop i data)) at 2. rewrite drop_drop.
      apply enc_next; [|done]. rewrite <- Hlit at 1. apply enc_raw; [lia|].
      intros j [Ht Hj]%triple_at_slice. by apply (Hclean j).
    + rewrite length_app. cbn [length]. rewrite Hlit.
      destruct Hstop as [->|[Hend|Ht]].
      * replace (length data - i + 126) with (length data - (i + 127) + 126 + 1 * 127)
          by lia.
        rewrite Nat.div_add by lia. lia.
      * assert (tail = []) as ->.
        { apply enc_stream_nil. by rewrite drop_ge in Hs by lia. }
        assert (1 ≤ (length data - i + 126) / 127); [|cbn [length]; lia].
        apply Nat.div_le_lower_bound; lia.
      * specialize (Htriple Ht).
        assert ((length data - (i + rl) + 126) / 127 ≤ (length data - i + 126) / 127)
          by (apply Nat.Div0.div_le_mono; lia).
        lia.
Qed.

Lemma rle_encode_shape (S : list Z) :
  is_bytes S →
  ∃ E, perform_run_length_encoding S = Ok E
       ∧ enc_stream E S
       ∧ length E ≤ length S + (length S + 126) / 127.
Proof.
  intros HS.
  destruct (rle_loop_shape S (length S) 0 [] HS) as (tail & Hloop & Hs & Hlen & _);
    [lia..|].
  rewrite Nat.sub_0_r in Hlen. unfold perform_run_length_encoding.
  destruct S as [|b l]; [exists []; split_and!; [done|constructor|done]|].
  by exists tail.
Qed.

(** X8. What the encoder writes for a byte stream is a sequence of records
    of two kinds that together stand for the stream: a repeat record
    [0x80 | count, value] with [count] between 3 and 127, and a raw record
    [length, literals] with between 1 and 127 literals, among which no three
    consecutive ones are equal. *)
Theorem rle_encode_records (S : list Z) :
  is_bytes S → ∃ E, perform_run_length_encoding S = Ok E ∧ enc_stream E S.
Proof.
  intros HS. destruct (rle_encode_shape S HS) as (E & HE & Hs & _). by exists E.
Qed.

(** X12. The encoding of a byte stream of [n] values is at most
    [n + ceil(n / 127)] bytes long: one extra byte for every 127 values at
    worst. *)
Theorem rle_encode_length (S : list Z) :
  is_bytes S →
  ∃ E, perform_run_length_encoding S = Ok E
       ∧ length E ≤ length S + (length S + 126) / 127.
Proof.
  intros HS. destruct (rle_encode_shape S HS) as (E & HE & _ & Hlen). by exists E.
Qed.

(** ** Constant buffers *)

Lemma rle_loop_constant (data : list Z) (v : Z) (fuel i : nat) (encoded : list Z) :
  is_bytes data →
  (∀ j, i ≤ j < length data → data !! j = Some v) →
  length data - i ≤ fuel → i ≤ length data →
  ∃ tail, rle_loop fuel data i encoded = Ok (encoded ++ tail)
          ∧ length tail ≤ 2 * ((length data - i + 126) / 127) + 1
          ∧ (length data ≤ i → tail = []).
Proof.
  intros Hdata. revert i encoded.
  induction fuel as [|fuel IH]; intros i encoded Hconst Hfuel Hi.
  { exists []. assert (i = length data) as -> by lia. cbn [rle_loop].
    rewrite Nat.ltb_irrefl, app_nil_r. split_and!; [done|cbn [length]; lia|done]. }
  cbn [rle_loop]. destruct (Nat.ltb_spec i (length data)) as [Hlt|Hge]; cycle 1.
  { exists []. rewrite app_nil_r. split_and!; [done|cbn [length]; lia|done]. }
  pose proof (Hconst i ltac:(lia)) as Hcur.
  assert (is_byte v) as Hvb by (eapply Forall_lookup_1; [apply Hdata|apply Hcur]).
  rewrite (list_get_lookup _ _ _ Hcur). cbn [mbind result_bind].
  destruct (run_count_loop_spec data i v 127 1) as (c & -> & Hc & Hrun & Hmax);
    [lia..| |].
  { intros k Hk. assert (k = 0) as -> by lia. by rewrite Nat.add_0_r. }
  cbn [mbind result_bind].
  assert (i + c ≤ length data) as Hin.
  { assert (i + (c - 1) < length data); [|lia].
    eapply lookup_lt_Some, Hrun. lia. }
  assert (c = 127 ∨ i + c = length data) as Hfull.
  { destruct (decide (c = 127)); [by left|right].
    destruct (decide (i + c = length data)); [done|].
    destruct Hmax; [lia|]. apply Hconst. lia. }
  destruct (Nat.ltb_spec 2 c) as [Hbig|Hsmall].
  - destruct (repeat_header c) as (Hhb & _); [lia|].
    rewrite !bytearray_append_Ok by done. cbn [mbind result_bind].
    rewrite bytearray_append_Ok by done. cbn [mbind result_bind].
    destruct (IH (i + c) ((encoded ++ [Z.lor 128 (Z.of_nat c)]) ++ [v]))
      as (tail & -> & Hlen & Hnil); [intros j Hj; apply Hconst; lia|lia..|].
    exists ([Z.lor 128 (Z.of_nat c); v] ++ tail).
    split_and!; [by rewrite <- !app_assoc| |lia].
    rewrite length_app. cbn [length]. destruct Hfull as [->|Hend].
    + replace (length data - i + 126) with (length data - (i + 127) + 126 + 1 * 127)
        by lia.
      rewrite Nat.div_add by lia. lia.
    + rewrite Hnil by lia. cbn [length].
      assert (1 ≤ (length data - i + 126) / 127) by (apply Nat.div_le_lower_bound; lia).
      lia.
  - assert (¬ triple_at data i) as Hno by (intros [? _]; lia).
    destruct (raw_loop_stop data i 127 0 Hdata)
      as (rl & Hraw & Hrl & Hin' & _ & Hstop); [lia..| |].
    { intros j Hj. lia. }
    rewrite take_0 in Hraw. rewrite Hraw. cbn [mbind result_bind].
    assert (i + rl = length data) as Hend.
    { destruct Hstop as [?|[?|[? _]]]; lia. }
    destruct (raw_header rl) as (Hhb & _); [lia|].
    rewrite bytearray_append_Ok by done. cbn [mbind result_bind].
    destruct (IH (i + rl) ((encoded ++ [Z.of_nat rl]) ++ take rl (drop i data)))
      as (tail & -> & _ & Hnil); [intros j Hj; apply Hconst; lia|lia..|].
    rewrite Hnil by lia.
    exists (Z.of_nat rl :: take rl (drop i data)).
    split_and!; [by rewrite <- !app_assoc, app_nil_r| |lia].
    cbn [length]. rewrite length_take, length_drop.
    assert (1 ≤ (length data - i + 126) / 127) by (apply Nat.div_le_lower_bound; lia).
    lia.
Qed.

Lemma mtf_replicate (k : nat) (c : Z) :
  is_byte c →
  perform_move_to_front_transform (replicate (S k) c) = Ok (c :: replicate k 0%Z).
Proof.
  intros Hc.
  assert (is_bytes (replicate (S k) c)) as Hblock by (by apply Forall_replicate).
  destruct (perform_mtf_total _ Hblock) as (R & Hfwd & _ & _ & Hlen).
  destruct (mtf_encode_ranks (replicate (S k) c) fresh_alphabet [])
    as (R' & alphabet' & Hloop & Hfirst & Hpairs); [by unfold alphabet_ok|done|].
  rewrite Hfwd. unfold perform_move_to_front_transform in Hfwd.
  rewrite Hloop in Hfwd. injection Hfwd as ->. f_equal.
  rewrite length_replicate in Hlen.
  apply list_eq. intros [|i].
  - destruct (Hfirst c) as (idx & -> & [-> _]%lookup_seqZ); done.
  - change ((c :: replicate k 0%Z) !! S i) with (replicate k 0%Z !! i).
    destruct (decide (i < k)) as [Hi|Hi].
    + rewrite lookup_replicate_2 by done.
      assert (replicate (S k) c !! i = Some c) as H1 by (apply lookup_replicate_2; lia).
      assert (replicate (S k) c !! S i = Some c) as H2
        by (apply lookup_replicate_2; lia).
      by apply (Hpairs i c c H1 H2).
    + rewrite (proj1 (lookup_replicate_None _ _ _)) by lia.
      apply lookup_ge_None. lia.
Qed.

Lemma rle_loop_S (fuel : nat) (data : list Z) (i : nat) (encoded : list Z) :
  rle_loop (S fuel) data i encoded
  = if i <? length data then
      current ← list_get data i;
      count ← run_count_loop 127 data i current 1;
      if 2 <? count then
        encoded ← bytearray_append encoded (Z.lor 128 (Z.of_nat count));
        encoded ← bytearray_append encoded current;
        rle_loop fuel data (i + count) encoded
      else
        '(run_length, raw_data) ← raw_loop 127 data i 0 [];
        encoded ← bytearray_append encoded (Z.of_nat run_length);
        rle_loop fuel data (i + run_length) (encoded ++ raw_data)
    else Ok encoded.
Proof. reflexivity. Qed.

Lemma rle_block_ranks (k : nat) (c : Z) :
  is_byte c → 3 ≤ k →
  ∃ E, perform_run_length_encoding (c :: replicate k 0%Z) = Ok E
       ∧ length E ≤ 2 * ((k + 126) / 127) + 3.
Proof.
  intros Hc Hk.
  assert (is_byte 0%Z) as H0 by (unfold is_byte; lia).
  assert (k / 127 ≤ (k + 126) / 127) as Hdiv by (apply Nat.Div0.div_le_mono; lia).
  destruct (decide (c = 0%Z)) as [->|Hne].
  - change (0%Z :: replicate k 0%Z) with (replicate (S k) 0%Z).
    destruct (rle_loop_constant (replicate (S k) 0%Z) 0%Z
                (length (replicate (S k) 0%Z)) 0 [])
      as (tail & Hloop & Hlen & _); [by apply Forall_replicate| |lia..|].
    { intros j Hj. rewrite length_replicate in Hj. apply lookup_replicate_2. lia. }
    rewrite length_replicate in Hlen.
    exists tail. split; [exact Hloop|].
    replace (S k - 0 + 126) with (k + 1 * 127) in Hlen by lia.
    rewrite Nat.div_add in Hlen by lia. lia.
  - destruct k as [|[|[|k]]]; [lia..|]. clear Hk.
    set (data := c :: replicate (S (S (S k))) 0%Z).
    assert (is_bytes data) as Hdata
      by (constructor; [done|by apply Forall_replicate]).
    assert (length data = S (S (S (S k)))) as Hlen
      by (unfold data; cbn [length]; by rewrite length_replicate).
    assert (∀ j, 1 ≤ j < length data → data !! j = Some 0%Z) as Hzeros.
    { intros [|j] Hj; [lia|]. rewrite Hlen in Hj.
      change (data !! S j) with (replicate (S (S (S k))) 0%Z !! j).
      apply lookup_replicate_2. lia. }
    change (perform_run_length_encoding data) with (rle_loop (length data) data 0 []).
    rewrite Hlen, rle_loop_S, Hlen. change (0 <? S (S (S (S k)))) with true. cbv iota.
    rewrite (list_get_lookup data 0 c) by done. cbn [mbind result_bind].
    destruct (run_count_loop_spec data 0 c 127 1) as (n1 & -> & Hn1 & Hrun & _);
      [lia..| |].
    { intros j Hj. by assert (j = 0) as -> by lia. }
    assert (n1 = 1) as ->.
    { destruct (decide (n1 = 1)); [done|exfalso].
      specialize (Hrun 1 ltac:(lia)). change (0 + 1) with 1 in Hrun.
      rewrite (Hzeros 1) in Hrun by lia. congruence. }
    cbn [mbind result_bind]. change (2 <? 1) with false. cbv iota.
    destruct (raw_loop_stop data 0 127 0 Hdata) as (rl & Hraw & Hrl & _ & Hclean & Hstop);
      [lia..| |].
    { intros j Hj. lia. }
    rewrite take_0 in Hraw. rewrite Hraw. cbn [mbind result_bind].
    assert (triple_at data 1) as Ht1.
    { split; [lia|]. unfold three_equal.
      by rewrite !Hzeros by lia. }
    assert (rl = 1) as ->.
    { destruct (decide (1 < rl)) as [Hbig|]; [by destruct (Hclean 1 Hbig)|].
      destruct (decide (rl = 0)) as [->|]; [|lia].
      destruct Hstop as [?|[?|[_ Ht0]]]; [lia..|].
      apply three_equal_true in Ht0 as (x & Hx0 & Hx1 & _).
      change (0 + 0 + 1) with 1 in Hx1. change (0 + 0) with 0 in Hx0.
      rewrite (Hzeros 1) in Hx1 by lia. simpl in Hx0. congruence. }
    rewrite bytearray_append_Ok by (unfold is_byte; lia). cbn [mbind result_bind].
    destruct (rle_loop_constant data 0%Z (S (S (S k))) 1
                (([] ++ [Z.of_nat 1]) ++ take 1 (drop 0 data)) Hdata)
      as (tail & Hloop & Hbound & _); [|lia..|].
    { intros j Hj. apply Hzeros. lia. }
    change (0 + 1) with 1. rewrite Hloop. eexists. split; [reflexivity|].
    rewrite Hlen in Hbound.
    replace (S (S (S (S k))) - 1 + 126) with (S (S (S k)) + 126) in Hbound by lia.
    rewrite !length_app, length_take. cbn [length]. lia.
Qed.

(** X13. A file of 512 bytes or more that repeats one byte value is written
    as a compressed container of a few bytes (two for every 127 input bytes,
    plus at most seven), and is not restored by decoding: its primary index
    is zero, so the decoder takes the header for the store-mode flag and
    returns the run-coded payload. *)
Theorem constant_file_not_restored (n : nat) (c : Z) :
  is_byte c → 512 ≤ n →
  ∃ out, compress_file (replicate n c) = Ok out
         ∧ length out ≤ 2 * ((n + 125) / 127) + 7
         ∧ decompress_file out = Ok (drop 4 out)
         ∧ decompress_file out ≠ Ok (replicate n c).
Proof.
  intros Hc Hn. destruct n as [|k]; [lia|].
  destruct (rle_block_ranks k c Hc) as (E & HE & Hlen); [lia|].
  replace (S k + 125) with (k + 126) by lia.
  pose proof (Nat.Div0.mul_div_le (k + 126) 127) as Hq.
  assert (compress_file (replicate (S k) c) = Ok ([0; 0; 0; 0]%Z ++ E)) as Henc.
  { unfold compress_file, compress_file_try. rewrite length_replicate.
    destruct (Nat.ltb_spec (S k) 512); [lia|].
    rewrite bwt_replicate, (mtf_replicate k c Hc). cbn [mbind result_bind].
    rewrite HE. cbn [mbind result_bind].
    destruct (Nat.leb_spec (S k) (length E + 4)); [lia|]. reflexivity. }
  exists ([0; 0; 0; 0]%Z ++ E). split; [done|].
  assert (decompress_file ([0; 0; 0; 0]%Z ++ E) = Ok E) as Hdec by reflexivity.
  rewrite Hdec. split_and!; [rewrite length_app; cbn [length]; lia|done|].
  intros Heq.
  apply (f_equal (λ r, match r with Ok l => length l | _ => 0 end)) in Heq.
  cbv beta iota in Heq. rewrite length_replicate in Heq. lia.
Qed.

(** ** The run encoder on integers that are not byte values *)

Lemma first_non_byte (l : list Z) :
  ¬ is_bytes l →
  ∃ j x, l !! j = Some x ∧ ¬ is_byte x
         ∧ ∀ k y, k < j → l !! k = Some y → is_byte y.
Proof.
  induction l as [|b l IH]; intros Hbad; [by destruct Hbad; constructor|].
  destruct (decide (is_byte b)) as [Hb|Hb].
  - destruct IH as (j & x & Hj & Hx & Hbefore).
    { intros Hl. apply Hbad. by constructor. }
    exists (S j), x. split_and!; [done..|].
    intros [|k] y Hk Hy; [by injection Hy as <-|].
    apply (Hbefore k); [lia|done].
  - exists 0, b. split_and!; [done..|]. intros k y Hk. lia.
Qed.

Section bad_value.
Variables (data : list Z) (j0 : nat) (x : Z).
Hypothesis bad_here : data !! j0 = Some x.
Hypothesis bad_value : ¬ is_byte x.
Hypothesis good_before : ∀ k y, k < j0 → data !! k = Some y → is_byte y.

Lemma raw_loop_bad (i fuel run_length : nat) :
  127 - run_length ≤ fuel → run_length ≤ 127 → i + run_length ≤ j0 →
  raw_loop fuel data i run_length (take run_length (drop i data)) = Raise ByteRange
  ∨ ∃ rl, raw_loop fuel data i run_length (take run_length (drop i data))
          = Ok (rl, take rl (drop i data))
          ∧ run_length ≤ rl ≤ 127 ∧ i + rl ≤ j0
          ∧ (rl = run_length → rl = 127 ∨ triple_at data (i + rl)).
Proof.
  pose proof (lookup_lt_Some _ _ _ bad_here) as Hj0.
  revert run_length. induction fuel as [|fuel IH]; intros run_length Hfuel Hrl Hin.
  - assert (run_length = 127) as -> by lia. right. exists 127. simpl.
    rewrite andb_false_r. split_and!; [done|lia..|by left].
  - cbn [raw_loop].
    destruct (Nat.ltb_spec (i + run_length) (length data)) as [Hlt|?]; [|lia].
    destruct (Nat.ltb_spec run_length 127) as [Hlt'|Hge']; cycle 1.
    { right. exists run_length. split_and!; [done|lia..|left; lia]. }
    cbn [andb].
    destruct ((i + run_length + 2 <? length data) && three_equal data (i + run_length))
      eqn:Hbreak.
    { apply andb_prop in Hbreak as [?%Nat.ltb_lt ?].
      right. exists run_length. split_and!; [done|lia..|by right]. }
    destruct (lookup_lt_is_Some_2 data (i + run_length) Hlt) as [v Hv].
    rewrite (list_get_lookup _ _ _ Hv). cbn [mbind result_bind].
    destruct (decide (i + run_length = j0)) as [Heq|Hne].
    + left. rewrite Heq, bad_here in Hv. injection Hv as <-.
      unfold bytearray_append. by rewrite decide_False.
    + rewrite bytearray_append_Ok by (apply (good_before (i + run_length)); [lia|done]).
      cbn [mbind result_bind].
      rewrite <- take_S_r by (by rewrite lookup_drop).
      rewrite Nat.add_1_r.
      destruct (IH (S run_length)) as [Hraise|(rl & Hok & Hle & Hin' & _)]; [lia..| |].
      * by left.
      * right. exists rl. split_and!; [done|lia..|]. intros ->. lia.
Qed.

Lemma rle_loop_bad (fuel i : nat) (encoded : list Z) :
  length data - i ≤ fuel → i ≤ j0 →
  rle_loop fuel data i encoded = Raise ByteRange.
Proof.
  pose proof (lookup_lt_Some _ _ _ bad_here) as Hj0.
  revert i encoded. induction fuel as [|fuel IH]; intros i encoded Hfuel Hi; [lia|].
  rewrite rle_loop_S. destruct (Nat.ltb_spec i (length data)) as [Hlt|?]; [|lia].
  destruct (lookup_lt_is_Some_2 data i Hlt) as [current Hcur].
  rewrite (list_get_lookup _ _ _ Hcur). cbn [mbind result_bind].
  destruct (run_count_loop_spec data i current 127 1) as (c & -> & Hc & Hrun & Hmax);
    [lia..| |].
  { intros k Hk. assert (k = 0) as -> by lia. by rewrite Nat.add_0_r. }
  cbn [mbind result_bind].
  destruct (Nat.ltb_spec 2 c) as [Hbig|Hsmall].
  - destruct (repeat_header c) as (Hhb & _); [lia|].
    rewrite (bytearray_append_Ok encoded) by done. cbn [mbind result_bind].
    destruct (decide (i = j0)) as [->|Hne].
    + rewrite bad_here in Hcur. injection Hcur as <-.
      unfold bytearray_append. by rewrite decide_False.
    + rewrite bytearray_append_Ok by (apply (good_before i); [lia|done]).
      cbn [mbind result_bind]. apply IH; [lia|].
      destruct (decide (i + c ≤ j0)); [done|exfalso].
      specialize (Hrun (j0 - i) ltac:(lia)).
      replace (i + (j0 - i)) with j0 in Hrun by lia.
      rewrite bad_here in Hrun. injection Hrun as ->.
      apply bad_value, (good_before i); [lia|done].
  - assert (¬ triple_at data i) as Hno.
    { intros [Hi2 (y & Hy0 & Hy1 & Hy2)%three_equal_true].
      assert (y = current) as -> by congruence.
      assert (c = 1 ∨ c = 2) as [->| ->] by lia; (apply Hmax; [lia|done]). }
    destruct (raw_loop_bad i 127 0) as [Hraise|(rl & Hok & Hrl & Hin & Hprogress)];
      [lia..| |].
    + rewrite take_0 in Hraise. by rewrite Hraise.
    + rewrite take_0 in Hok. rewrite Hok. cbn [mbind result_bind].
      assert (1 ≤ rl) as Hpos.
      { destruct (decide (rl = 0)) as [->|]; [|lia].
        destruct Hprogress as [?|Ht]; [done|lia|]. by rewrite Nat.add_0_r in Ht. }
      destruct (raw_header rl) as (Hhb & _); [lia|].
      rewrite bytearray_append_Ok by done. cbn [mbind result_bind].
      apply IH; lia.
Qed.

End bad_value.

(** X14. The run encoder accepts a list of integers exactly when all of
    them lie in [0, 255]; on any other list it raises the range error of
    [bytearray.append]. *)
Theorem rle_encode_failure (S : list Z) :
  (is_bytes S ∧ ∃ E, perform_run_length_encoding S = Ok E)
  ∨ (¬ is_bytes S ∧ perform_run_length_encoding S = Raise ByteRange).
Proof.
  destruct (decide (is_bytes S)) as [HS|HS].
  - left. split; [done|]. destruct (encode_stream S HS) as (E & HE & _). by exists E.
  - right. split; [done|].
    destruct (first_non_byte S HS) as (j & x & Hj & Hx & Hbefore).
    unfold perform_run_length_encoding. destruct S as [|b S]; [done|].
    apply (rle_loop_bad _ j x Hj Hx Hbefore); lia.
Qed.

(** ** When encoding gives up *)

(** X15. On a byte buffer the [try] block of [compress_file] either writes a
    container or raises the overflow error of [int.to_bytes]; none of the
    transforms raises on the way.  The overflow needs a primary index of
    2^32 or more, hence an input of at least 2^32 bytes; the handler
    catches it, and [compress_file] leaves through [sys.exit(1)].  No
    exception of the [try] block leaves [compress_file]. *)
Theorem compress_file_outcomes (X : list Z) :
  is_bytes X →
  (∃ out, compress_file_try X = Ok out ∧ compress_file X = Ok out)
  ∨ (compress_file_try X = Raise OverflowError
     ∧ compress_file X = Raise (SystemExit 1)
     ∧ (2 ^ 32 ≤ (perform_burrows_wheeler_transform X).2)%Z
     ∧ (2 ^ 32 ≤ Z.of_nat (length X))%Z).
Proof.
  intros HX. unfold compress_file.
  destruct (compress_file_try_cases X HX)
    as [[_ ->]|(_ & mtf_data & rle_data & _ & _ & [[_ ->]|[_ ->]])];
    [left; by eexists..|].
  destruct (bwt_forward_bytes X HX) as (_ & Hrange & _).
  unfold to_bytes4.
  destruct (Z.ltb_spec (perform_burrows_wheeler_transform X).2 0); [lia|].
  destruct (Z.leb_spec (2 ^ 32) (perform_burrows_wheeler_transform X).2) as [Hbig|Hsmall].
  - right. cbn [orb mbind result_bind].
    split; [reflexivity|]. split; [reflexivity|]. split; [exact Hbig|lia].
  - left. by eexists.
Qed.

(** ** Instances of the further properties *)

Lemma round_trip_iff_witness :
  is_bytes banana ∧ compress_file banana = Ok (store_container banana)
  ∧ (decompress_file (store_container banana) = Ok banana
     ↔ store_container banana = store_container banana
       ∨ (perform_burrows_wheeler_transform banana).2 ≠ 0%Z).
Proof.
  split_and!; [exact banana_bytes|reflexivity|].
  exact (proj1 (round_trip_iff banana (store_container banana) banana_bytes eq_refl)).
Defined.

Lemma banana_nonempty : banana ≠ [].
Proof. discriminate. Defined.

Lemma primary_index_zero_iff_witness :
  banana ≠ []
  ∧ ((perform_burrows_wheeler_transform banana).2 = 0%Z
     ↔ ∀ a, a < length banana → (compare_rotations banana 0 a ≤ 0)%Z).
Proof.
  split; [exact banana_nonempty|exact (primary_index_zero_iff banana banana_nonempty)].
Defined.

Lemma mtf_ranks_witness :
  is_bytes banana
  ∧ ∃ R, perform_move_to_front_transform banana = Ok R
         ∧ length R = length banana ∧ is_bytes R
         ∧ (∀ b, banana !! 0 = Some b → R !! 0 = Some b)
         ∧ (∀ i b b', banana !! i = Some b → banana !! S i = Some b' →
                      R !! S i = Some 0%Z ↔ b' = b).
Proof. split; [exact banana_bytes|exact (mtf_ranks banana banana_bytes)]. Defined.

Lemma mtf_forward_of_inverse_witness :
  is_bytes banana
  ∧ ∃ X, reverse_move_to_front_transform banana = Ok X
         ∧ perform_move_to_front_transform X = Ok banana.
Proof.
  split; [exact banana_bytes|exact (mtf_forward_of_inverse banana banana_bytes)].
Defined.

Lemma rle_encode_records_witness :
  is_bytes banana ∧ ∃ E, perform_run_length_encoding banana = Ok E ∧ enc_stream E banana.
Proof.
  split; [exact banana_bytes|exact (rle_encode_records banana banana_bytes)].
Defined.

Lemma rle_encode_length_witness :
  is_bytes banana
  ∧ ∃ E, perform_run_length_encoding banana = Ok E
         ∧ length E ≤ length banana + (length banana + 126) / 127.
Proof.
  split; [exact banana_bytes|exact (rle_encode_length banana banana_bytes)].
Defined.

Lemma rle_decode_app_witness :
  is_bytes whole_stream ∧ is_bytes cut_stream
  ∧ decode_run_length_encoding whole_stream = Ok [7; 7; 7; 1; 0]%Z
  ∧ decode_run_length_encoding (whole_stream ++ cut_stream)
    = (o2 ← decode_run_length_encoding cut_stream; Ok ([7; 7; 7; 1; 0]%Z ++ o2)).
Proof.
  split_and!; [exact whole_stream_bytes|exact cut_stream_bytes|reflexivity|].
  exact (rle_decode_app whole_stream cut_stream _ whole_stream_bytes cut_stream_bytes
           eq_refl).
Defined.

Lemma decompress_file_outcomes_witness :
  (is_bytes cut_file
   ∧ decompress_file cut_file = Raise (ValueError RunValueMissing)
   ∧ take 4 cut_file ≠ [0; 0; 0; 0]%Z
   ∧ ∃ e, rc_truncated (drop 4 cut_file) e)
  ∧ (is_bytes far_index_file
     ∧ decompress_file far_index_file = Raise (ValueError OriginalIndexOutOfRange)
     ∧ take 4 far_index_file ≠ [0; 0; 0; 0]%Z
     ∧ ∃ ranks, rc_stream (drop 4 far_index_file) ranks ∧ ranks ≠ []
                ∧ (Z.of_nat (length ranks) ≤ from_bytes_big (take 4 far_index_file))%Z).
Proof.
  split.
  - split; [exact cut_file_bytes|]. split; [reflexivity|].
    apply (proj1 (proj1 (decompress_file_outcomes cut_file cut_file_bytes))).
    exists (ValueError RunValueMissing). split; [reflexivity|left; reflexivity].
  - split; [exact far_index_file_bytes|]. split; [reflexivity|].
    exact (proj1 (proj1 (proj2 (decompress_file_outcomes far_index_file
                                  far_index_file_bytes))) eq_refl).
Defined.

Lemma decompress_short_file_witness :
  length [7; 8]%Z < 4 ∧ decompress_file [7; 8]%Z = Ok [].
Proof.
  assert (length [7; 8]%Z < 4) as H by (simpl; lia).
  split; [exact H|exact (decompress_short_file [7; 8]%Z H)].
Defined.

Lemma byte_65 : is_byte 65.
Proof. unfold is_byte. lia. Defined.

Lemma constant_file_not_restored_witness :
  is_byte 65 ∧ 512 ≤ 600
  ∧ ∃ out, compress_file (replicate 600 65%Z) = Ok out
           ∧ length out ≤ 2 * ((600 + 125) / 127) + 7
           ∧ decompress_file out = Ok (drop 4 out)
           ∧ decompress_file out ≠ Ok (replicate 600 65%Z).
Proof.
  assert (512 ≤ 600) as H by lia.
  split_and!; [exact byte_65|exact H|].
  exact (constant_file_not_restored 600 65 byte_65 H).
Defined.

Lemma compress_file_outcomes_witness :
  is_bytes block_600 ∧ 512 ≤ length block_600
  ∧ ∃ out, compress_file_try block_600 = Ok out ∧ compress_file block_600 = Ok out.
Proof.
  split; [exact block_600_bytes|]. split; [exact block_600_length|].
  destruct (compress_file_outcomes block_600 block_600_bytes)
    as [Hout|(_ & _ & _ & Hlen)]; [exact Hout|].
  exfalso. rewrite block_600_length_eq in Hlen. lia.
Defined.
